(** * combine-and-bzip-csvs: the fetch / combine / compress / upload pipeline

    A shallow embedding of [scripts/combine-and-bzip-csvs/main.py] and the
    properties of its two entry points, [combine_and_upload_high_ram] and
    [combine_and_upload_streaming_chunked].

    The script talks to three outside parties: the source file system
    (gcsfs), the terminal ([input]) and the destination bucket
    (google-cloud-storage).  Their answers are the fields of a [World]; what
    the script asks of them is recorded, in program order, as a list of
    [event]s.  A run is a value of [M unit]: the events it produced and either
    [Ok tt] (the function returned) or [Raise e] (an exception left it).

    Console progress lines, timers and the [file_counter] they print are left
    out, except the lines that tell which branch the code took, and except
    the one computation among them that can raise: the throughput of a
    download (line 55), whose division of the file size is kept in
    [download_entire_file].  The other figures printed are floor divisions,
    divisions of floats guarded by [> 0], or divisions of byte counts that
    [len] bounds, none of which raises. *)

From Stdlib Require Import ZArith List Strings.String Strings.Ascii Strings.Byte.
From Stdlib Require Import Floats.SpecFloat.
From stdpp Require Import base tactics option list sorting gmap.

(** ** Python values *)

(** A Python [str] is a sequence of code points; [<] on it, which
    [list.sort] uses, is lexicographic in the code points. *)
Definition str : Type := list N.

(** A [bytes] object. *)
Definition bytes : Type := list byte.

(** An ASCII literal of the source as a [str]. *)
Definition lit (s : string) : str := N_of_ascii <$> list_ascii_of_string s.

(** An ASCII literal as [bytes] (used for example file bodies). *)
Definition blit (s : string) : bytes := list_byte_of_string s.

(** [a <= b] on [str], as a boolean. *)
Fixpoint str_leb (a b : str) : bool :=
  match a, b with
  | [], _ => true
  | _ :: _, [] => false
  | x :: a', y :: b' =>
      if (x <? y)%N then true
      else if (y <? x)%N then false
      else str_leb a' b'
  end.

(** [a <= b] on [str]. *)
Definition str_le (a b : str) : Prop := str_leb a b = true.

#[export] Instance str_le_dec a b : Decision (str_le a b).
Proof. unfold str_le. apply _. Defined.

(** [s.endswith(suffix)] *)
Definition endswith (s suffix : str) : bool :=
  bool_decide (drop (length s - length suffix) s = suffix).

(** [str.isspace] on one code point: the characters [str.strip()] removes. *)
Definition isspace (c : N) : bool :=
  ((9 <=? c) && (c <=? 13) || (28 <=? c) && (c <=? 32)
   || (c =? 133) || (c =? 160) || (c =? 5760)
   || (8192 <=? c) && (c <=? 8202)
   || (c =? 8232) || (c =? 8233) || (c =? 8239) || (c =? 8287)
   || (c =? 12288))%N.

(** [s.lstrip()] and [s.rstrip()] *)
Fixpoint lstrip (s : str) : str :=
  match s with
  | c :: s' => if isspace c then lstrip s' else s
  | [] => []
  end.

Definition rstrip (s : str) : str := rev (lstrip (rev s)).

(** [s.strip()] *)
Definition strip (s : str) : str := rstrip (lstrip s).

(** [list.sort()] on a list of [str]: the sorted arrangement of the list,
    which is unique ([sort_unique]), so the sorting algorithm does not
    matter. *)
Definition sort (l : list str) : list str := merge_sort str_le l.

(** The f-string rendering of a value read with [os.getenv] and no default. *)
Definition fmt (o : option str) : str := default (lit "None") o.

(** ** Exceptions and results *)

(** Instances of [Exception] that can reach the two functions.  (What is
    no [Exception], such as [KeyboardInterrupt], is outside the model.) *)
Inductive exn : Type :=
| ValueError            (* ThreadPoolExecutor(max_workers <= 0) *)
| EOFError              (* input() at end of stdin *)
| OverflowError         (* int / int too large for a float *)
| ZeroDivisionError
| TransportError (detail : string).   (* raised by gcsfs or google-cloud-storage *)

Inductive res (A : Type) : Type :=
| Ok (a : A)
| Raise (e : exn).
Arguments Ok {A} a.
Arguments Raise {A} e.

#[export] Instance res_ret : MRet res := λ A a, Ok a.
#[export] Instance res_bind : MBind res := λ A B k r,
  match r with Ok a => k a | Raise e => Raise e end.

(** ** What the script asks of the outside *)

(** Keyword arguments of [gcsfs.GCSFileSystem(...)]; [None] is an argument
    that the call leaves out. *)
Record FsOptions : Type := {
  cache_timeout : option Z;
  listings_expiry_time : option Z;
  skip_instance_cache : option bool;
  requests_timeout : option Z;
}.

(** One [blob.upload_from_file(...)] on [client.bucket(b).blob(n)]. *)
Record UploadCall : Type := {
  up_bucket : option str;
  up_blob : str;
  up_data : bytes;
  up_rewind : bool;
  up_content_type : str;
  up_timeout : option Z;
}.

(** The console lines that tell which branch was taken. *)
Inductive message : Type :=
| NoCsvFilesFound                     (* "No CSV files found!" *)
| ExceedsMemoryLimit                  (* "Warning: Estimated size ... exceeds memory limit" *)
| CouldNotEstimateSize (e : exn)      (* "Could not estimate size: ..." *)
| DownloadFailed (e : exn)            (* "Download failed: ..." *)
| MissingData (i : nat).              (* "Warning: Missing data for file index i" *)

(** The calls and console lines of the main thread, each recorded when it
    is made (a call that raises is recorded too). *)
Inductive event : Type :=
| NewFileSystem (o : FsOptions)       (* gcsfs.GCSFileSystem(...) *)
| FsFind (prefix_path : str)          (* fs.find(prefix_path) *)
| FsSize (f : str)                    (* fs.size(f) of the estimator *)
| Printed (m : message)
| InputPrompt                         (* input("Continue anyway? (y/N): ") *)
| NewExecutor (max_workers : Z)       (* ThreadPoolExecutor(max_workers=...) *)
| Submitted (i : nat) (file_path : str)   (* executor.submit(...) of the i-th path *)
| UploadFromFile (u : UploadCall).    (* blob.upload_from_file(...) *)

(** ** Runs: a log of events and a result *)

Definition M (A : Type) : Type := (list event * res A)%type.

#[export] Instance M_ret : MRet M := λ A a, ([], Ok a).
#[export] Instance M_bind : MBind M := λ A B k m,
  match m with
  | (l, Ok a) => let '(l', r) := k a in (l ++ l', r)
  | (l, Raise e) => (l, Raise e)
  end.

(** One event; [raise e]; the answer of the outside to a call. *)
Definition emit (e : event) : M unit := ([e], Ok tt).
Definition raise {A} (e : exn) : M A := ([], Raise e).
Definition call {A} (r : res A) : M A := ([], r).

(** [try: m  except Exception as e: h e] *)
Definition try_except {A} (m : M A) (h : exn → M A) : M A :=
  match m with
  | (l, Ok a) => (l, Ok a)
  | (l, Raise e) => let '(l', r) := h e in (l ++ l', r)
  end.

(** The events of a run and its result. *)
Definition trace {A} (m : M A) : list event := m.1.
Definition result {A} (m : M A) : res A := m.2.

(** ** The libraries under the script

    The script relies on three library behaviours whose code is not the
    repository's: bz2 compression, Python's float arithmetic and
    [str.lower].  They are the fields of [Platform], and every property
    below holds for every platform. *)
Class Platform : Type := {
  (** [bz2.BZ2File(buf, 'wb', compresslevel)]: what the buffer holds once the
      writer is closed, from the level and all the bytes written to it. *)
  bz2_compress : Z → bytes → bytes;
  bz2_decompress : bytes → bytes;
  bz2_lossless : ∀ level data, bz2_decompress (bz2_compress level data) = data;
  (** Python floats. *)
  float : Type;
  int_truediv : Z → Z → res float;       (* int / int *)
  float_mul_int : float → Z → float;     (* float * int *)
  float_div_int : float → Z → float;     (* float / int, nonzero divisor *)
  float_gt_int : float → Z → bool;       (* float > int *)
  (** [str.lower] *)
  str_lower : str → str;
}.

(** ** Configuration and the outside world *)

(** The module-level settings read from the environment. *)
Record Config : Type := {
  SOURCE_BUCKET : option str;
  DEST_BUCKET : option str;
  DEST_FILENAME : str;
  GCS_PREFIX : str;
  MAX_WORKERS : Z;
  MEMORY_LIMIT_GB : Z;
}.

(** [fs.size] is called by the estimator and again by each download. *)
Inductive phase : Type := Estimating | Downloading.

Record World : Type := {
  (** [fs.find(prefix_path)] *)
  fs_find : str → res (list str);
  (** [fs.size(path)] *)
  fs_size : phase → str → res Z;
  (** [with fs.open(path, 'rb') as f: f.read()] *)
  fs_read : str → res bytes;
  (** Line 55, [download_time > 0]: whether the clock advanced while the
      path was read (lines 50-54). *)
  download_takes_time : str → bool;
  (** The order in which [as_completed] yields the submitted futures, each
      named by its position in the submission order.  [as_completed] yields
      every future once, so in a run of the script this is a permutation of
      the positions; a list that leaves a position out is a delivery that is
      withheld, and a position that names no future yields nothing. *)
  as_completed : list nat;
  (** [input(...)] *)
  input : res str;
  (** Lines 174-184 and 261-264: creating the client, naming the blob and
      [blob.upload_from_file(...)]; it raises when one of them does. *)
  upload_from_file : UploadCall → res unit;
}.

(** How a run of the high-RAM function passes the size gate. *)
Inductive gate : Type := Proceed | ReturnEarly.

(** Lines 73-78. *)
Definition high_ram_fs_options : FsOptions :=
  {| cache_timeout := Some 600%Z;
     listings_expiry_time := Some 600%Z;
     skip_instance_cache := Some false;
     requests_timeout := Some 300%Z |}.

(** Lines 203-207. *)
Definition streaming_fs_options : FsOptions :=
  {| cache_timeout := Some 600%Z;
     listings_expiry_time := Some 600%Z;
     skip_instance_cache := Some false;
     requests_timeout := None |}.

(** Several events at once. *)
Definition emits (l : list event) : M unit := (l, Ok tt).

Section Program.
Context `{Platform}.
Variable cfg : Config.
Variable w : World.

(** [f"{SOURCE_BUCKET}/{GCS_PREFIX}"] *)
Definition prefix_path : str :=
  fmt (SOURCE_BUCKET cfg) ++ lit "/" ++ GCS_PREFIX cfg.

(** Lines 83-84 and 212-213: keep the [.csv] paths, sort them. *)
Definition csv_files_of (found : list str) : list str :=
  let csv_files := List.filter (λ f, endswith f (lit ".csv")) found in
  sort csv_files.

(** Lines 80-84 and 209-213. *)
Definition list_csv_files : M (list str) :=
  emit (FsFind prefix_path);;
  csv_files ← call (fs_find w prefix_path);
  mret (csv_files_of csv_files).

(** [sum(fs.size(f) for f in sample_files)] *)
Fixpoint sum_sizes (sample_files : list str) (acc : Z) : M Z :=
  match sample_files with
  | [] => mret acc
  | f :: rest =>
      emit (FsSize f);;
      file_size ← call (fs_size w Estimating f);
      sum_sizes rest (acc + file_size)%Z
  end.

(** Lines 93-110: the size estimate and the confirmation gate. *)
Definition estimate (csv_files : list str) : M gate :=
  try_except
    (let sample_files := take (10 `min` length csv_files) csv_files in
     sample_size ← sum_sizes sample_files 0%Z;
     avg_size ← call (int_truediv sample_size (Z.of_nat (length sample_files)));
     let estimated_total_gb :=
       float_div_int (float_mul_int avg_size (Z.of_nat (length csv_files))) (1024 ^ 3)%Z in
     if float_gt_int estimated_total_gb (MEMORY_LIMIT_GB cfg) then
       emit (Printed ExceedsMemoryLimit);;
       emit InputPrompt;;
       response ← call (input w);
       let response := str_lower (strip response) in
       if decide (response ≠ lit "y") then mret ReturnEarly else mret Proceed
     else mret Proceed)
    (λ e, emit (Printed (CouldNotEstimateSize e));; mret Proceed).

(** Lines 43-65.  The throughput of line 55 is only printed, but its
    [file_size / (1024*1024)] is a division of ints inside the [try]: when
    the clock advanced it is evaluated, and an exception it raises
    ([OverflowError] for a size too large for a float) is raised again by
    the handler like that of a failed read.  (The [//] of line 48 is
    integer division by a constant and cannot raise; the division by a
    positive [download_time] is one of floats and cannot either.) *)
Definition download_entire_file (file_path : str) (file_index total_files : nat)
  : res (nat * bytes) :=
  file_size ← fs_size w Downloading file_path;
  file_data ← fs_read w file_path;
  throughput ←
    (if download_takes_time w file_path
     then mb ← int_truediv file_size (1024 * 1024)%Z; mret (Some mb)
     else mret None);
  mret (file_index, file_data).

(** Lines 129-135: the results, in completion order, go into the dict. *)
Fixpoint collect (futures : list (res (nat * bytes))) (order : list nat)
    (file_data_dict : gmap nat bytes) : M (gmap nat bytes) :=
  match order with
  | [] => mret file_data_dict
  | j :: order' =>
      match futures !! j with
      | None => collect futures order' file_data_dict
      | Some (Ok (file_index, file_data)) =>
          collect futures order' (<[file_index := file_data]> file_data_dict)
      | Some (Raise e) => emit (Printed (DownloadFailed e));; raise e
      end
  end.

(** [ThreadPoolExecutor(max_workers=MAX_WORKERS)] *)
Definition new_executor : M unit :=
  emit (NewExecutor (MAX_WORKERS cfg));;
  if decide (MAX_WORKERS cfg ≤ 0)%Z then raise ValueError else mret tt.

(** Lines 115-135: phase 1 of the high-RAM function. *)
Definition download_all (csv_files : list str) : M (gmap nat bytes) :=
  new_executor;;
  emits (imap Submitted csv_files);;
  let futures :=
    imap (λ i file_path, download_entire_file file_path i (length csv_files)) csv_files in
  collect futures (as_completed w) ∅.

(** Lines 154-160: the loop that feeds the compressor. *)
Fixpoint write_in_order (indices : list nat) (file_data_dict : gmap nat bytes)
    (written : bytes) : M (gmap nat bytes * bytes) :=
  match indices with
  | [] => mret (file_data_dict, written)
  | i :: rest =>
      match file_data_dict !! i with
      | Some file_data =>
          write_in_order rest (delete i file_data_dict) (written ++ file_data)
      | None =>
          emit (Printed (MissingData i));;
          write_in_order rest file_data_dict written
      end
  end.

(** Lines 149-160: phase 2, the compressed [output_buffer]. *)
Definition compress_in_order (n : nat) (file_data_dict : gmap nat bytes) : M bytes :=
  '(_, written) ← write_in_order (seq 0 n) file_data_dict [];
  mret (bz2_compress 9%Z written).

(** Lines 173-184 and 259-264. *)
Definition upload (timeout : option Z) (output_buffer : bytes) : M unit :=
  let u := {| up_bucket := DEST_BUCKET cfg;
              up_blob := DEST_FILENAME cfg;
              up_data := output_buffer;
              up_rewind := true;
              up_content_type := lit "application/x-bzip2";
              up_timeout := timeout |} in
  emit (UploadFromFile u);;
  call (upload_from_file w u).

(** Lines 145-196: phases 2 and 3 of the high-RAM function. *)
Definition compress_and_upload (n : nat) (file_data_dict : gmap nat bytes) : M unit :=
  output_buffer ← compress_in_order n file_data_dict;
  upload (Some 7200%Z) output_buffer.

(** Lines 112-196: the three phases after the gate. *)
Definition download_compress_upload (csv_files : list str) : M unit :=
  file_data_dict ← download_all csv_files;
  compress_and_upload (length csv_files) file_data_dict.

(** Lines 67-196. *)
Definition combine_and_upload_high_ram : M unit :=
  emit (NewFileSystem high_ram_fs_options);;
  csv_files ← list_csv_files;
  if decide (csv_files = []) then
    emit (Printed NoCsvFilesFound);; mret tt
  else
    g ← estimate csv_files;
    match g with
    | ReturnEarly => mret tt
    | Proceed => download_compress_upload csv_files
    end.

(** Lines 225-239. *)
Definition process_file_fast (file_path : str) : res bytes :=
  fs_read w file_path.

(** Lines 245-246: [all_data.append(future.result())] in completion order. *)
Fixpoint gather (futures : list (res bytes)) (order : list nat)
    (all_data : list bytes) : M (list bytes) :=
  match order with
  | [] => mret all_data
  | j :: order' =>
      match futures !! j with
      | None => gather futures order' all_data
      | Some (Ok file_data) => gather futures order' (all_data ++ [file_data])
      | Some (Raise e) => raise e
      end
  end.

(** Lines 242-246. *)
Definition process_all (csv_files : list str) : M (list bytes) :=
  new_executor;;
  emits (imap Submitted csv_files);;
  gather (process_file_fast <$> csv_files) (as_completed w) [].

(** Lines 198-267. *)
Definition combine_and_upload_streaming_chunked : M unit :=
  emit (NewFileSystem streaming_fs_options);;
  csv_files ← list_csv_files;
  all_data ← process_all csv_files;
  let output_buffer := bz2_compress 9%Z (concat all_data) in
  upload None output_buffer.

End Program.

(** ** A platform to run examples on *)

(** IEEE binary64, from the Standard Library's executable specification. *)
Definition f64_of_Z (z : Z) : spec_float := binary_normalize 53%Z 1024%Z z 0%Z false.

(** [a / b] on ints: the quotient rounded to binary64 (for operands below
    [2^53] in magnitude, which convert exactly). *)
Definition f64_int_truediv (a b : Z) : res spec_float :=
  if decide (b = 0%Z) then Raise ZeroDivisionError
  else match SFdiv 53%Z 1024%Z (f64_of_Z a) (f64_of_Z b) with
       | S754_finite s m e => Ok (S754_finite s m e)
       | S754_zero s => Ok (S754_zero s)
       | _ => Raise OverflowError
       end.

(** [str.lower] on ASCII text: [A-Z] to [a-z], the rest unchanged. *)
Definition ascii_lower (s : str) : str :=
  (λ c, if ((65 <=? c) && (c <=? 90))%N then (c + 32)%N else c) <$> s.

(** A codec with bz2's interface and its losslessness, small enough to read
    results off: the magic [BZh], the level digit, then the data as is. *)
Definition stored_compress (level : Z) (data : bytes) : bytes :=
  blit "BZh" ++ [default x30 (Byte.of_N (48 + Z.to_N level))] ++ data.

Definition stored_decompress (data : bytes) : bytes := drop 4 data.

#[export] Instance reference_platform : Platform := {|
  bz2_compress := stored_compress;
  bz2_decompress := stored_decompress;
  bz2_lossless := λ _ _, eq_refl;
  float := spec_float;
  int_truediv := f64_int_truediv;
  float_mul_int := λ x n, SFmul 53%Z 1024%Z x (f64_of_Z n);
  float_div_int := λ x n, SFdiv 53%Z 1024%Z x (f64_of_Z n);
  float_gt_int := λ x n, SFltb (f64_of_Z n) x;
  str_lower := ascii_lower;
|}.

(** ** Reading a run *)

(** The upload calls of a trace: the only writes to the destination. *)
Definition uploads (tr : list event) : list UploadCall :=
  omap (λ e, match e with UploadFromFile u => Some u | _ => None end) tr.

(** The retrievals handed to the worker pool. *)
Definition submitted (tr : list event) : list (nat * str) :=
  omap (λ e, match e with Submitted i p => Some (i, p) | _ => None end) tr.

(** The paths whose size the estimator asked for. *)
Definition size_queries (tr : list event) : list str :=
  omap (λ e, match e with FsSize f => Some f | _ => None end) tr.

(** The file-system options the run was set up with. *)
Definition fs_options (tr : list event) : list FsOptions :=
  omap (λ e, match e with NewFileSystem o => Some o | _ => None end) tr.

(** The payloads the dict holds for the indices [0 .. n-1], in index order. *)
Definition present (n : nat) (file_data_dict : gmap nat bytes) : list bytes :=
  omap (λ i, file_data_dict !! i) (seq 0 n).

(** The indices below [n] for which the dict holds nothing. *)
Definition missing (n : nat) (file_data_dict : gmap nat bytes) : list nat :=
  filter (λ i, file_data_dict !! i = None) (seq 0 n).

(** The sum of the sampled sizes. *)
Definition total (sizes : list Z) : Z := foldr Z.add 0%Z sizes.

(** The upload call of the high-RAM function for a compressed buffer. *)
Definition high_ram_upload (cfg : Config) (output_buffer : bytes) : UploadCall :=
  {| up_bucket := DEST_BUCKET cfg;
     up_blob := DEST_FILENAME cfg;
     up_data := output_buffer;
     up_rewind := true;
     up_content_type := lit "application/x-bzip2";
     up_timeout := Some 7200%Z |}.

(** The upload call of the streaming function: the same but for the timeout,
    which it leaves out. *)
Definition streaming_upload (cfg : Config) (output_buffer : bytes) : UploadCall :=
  {| up_bucket := DEST_BUCKET cfg;
     up_blob := DEST_FILENAME cfg;
     up_data := output_buffer;
     up_rewind := true;
     up_content_type := lit "application/x-bzip2";
     up_timeout := None |}.

(** The console lines of a trace. *)
Definition printed (tr : list event) : list message :=
  omap (λ e, match e with Printed m => Some m | _ => None end) tr.

(** The events between the set-up of the file system and the upload. *)
Definition inner_event (ev : event) : Prop :=
  match ev with
  | NewFileSystem _ | UploadFromFile _ => False
  | _ => True
  end.

(** The [max_workers] of the pools a run created. *)
Definition executors (tr : list event) : list Z :=
  omap (λ e, match e with NewExecutor n => Some n | _ => None end) tr.

(** Events that neither create a pool nor submit to one. *)
Definition no_pool_event (ev : event) : Prop :=
  match ev with
  | NewExecutor _ | Submitted _ _ => False
  | _ => True
  end.

(** Events that create no pool. *)
Definition no_executor_event (ev : event) : Prop :=
  match ev with
  | NewExecutor _ => False
  | _ => True
  end.

(** A trace that submits retrievals to at most one pool, created with
    [max_workers = MAX_WORKERS]; where the creation fails, nothing is
    submitted. *)
Definition uses_one_pool (cfg : Config) (tr : list event) : Prop :=
  (executors tr = [] ∧ submitted tr = [])
  ∨ (executors tr = [MAX_WORKERS cfg]
     ∧ ((MAX_WORKERS cfg ≤ 0)%Z → submitted tr = [])).

(** The events an estimate can produce: size queries, console lines and the
    prompt. *)
Definition estimator_event (ev : event) : Prop :=
  match ev with
  | FsSize _ | Printed _ | InputPrompt => True
  | _ => False
  end.

(** ** Example buckets *)

(** Two buckets, and the source's defaults for the other settings. *)
Definition example_config : Config :=
  {| SOURCE_BUCKET := Some (lit "src");
     DEST_BUCKET := Some (lit "dst");
     DEST_FILENAME := lit "combined_output.csv.bz2";
     GCS_PREFIX := lit "";
     MAX_WORKERS := 32%Z;
     MEMORY_LIMIT_GB := 80%Z |}.

(** The first entry of a table under a path. *)
Fixpoint assoc {A} (table : list (str * A)) (p : str) : option A :=
  match table with
  | [] => None
  | (k, v) :: t => if decide (k = p) then Some v else assoc t p
  end.

(** What the file system raises for a path it does not hold. *)
Definition not_found {A} : res A := Raise (TransportError "not found").

(** A bucket given by its objects, in the order [fs.find] lists them; a body
    that is [Raise e] is an object whose read fails. *)
Definition bucket_read (objects : list (str * res bytes)) (p : str) : res bytes :=
  default not_found (assoc objects p).

(** The size the bucket reports: the length of the body (4 for an object
    that cannot be read). *)
Definition bucket_size (objects : list (str * res bytes)) (p : str) : res Z :=
  match assoc objects p with
  | Some (Ok body) => Ok (Z.of_nat (length body))
  | Some (Raise e) => Ok 4%Z
  | None => not_found
  end.

(** The world of a bucket: its listing and reads, the sizes it reports, the
    completion order of the futures and what [input] does; a read is served
    before the clock advances, and uploads succeed. *)
Definition bucket_world (objects : list (str * res bytes))
    (size : phase → str → res Z) (order : list nat) (response : res str) : World :=
  {| fs_find := λ _, Ok objects.*1;
     fs_size := size;
     fs_read := bucket_read objects;
     download_takes_time := λ _, false;
     as_completed := order;
     input := response;
     upload_from_file := λ _, Ok tt |}.

(** The same world when every read takes measurable time. *)
Definition timed (w : World) : World :=
  {| fs_find := fs_find w;
     fs_size := fs_size w;
     fs_read := fs_read w;
     download_takes_time := λ _, true;
     as_completed := as_completed w;
     input := input w;
     upload_from_file := upload_from_file w |}.

(** A record and its newline. *)
Definition line (s : string) : bytes := blit s ++ [x0a].

Definition a_csv : str := lit "src/a.csv".
Definition b_csv : str := lit "src/b.csv".
Definition c_csv : str := lit "src/c.csv".

(** The scenario of the specification: [a.csv], [b.csv], [c.csv] with one
    record each, listed out of order beside a file that is no CSV. *)
Definition abc : list (str * res bytes) :=
  [ (c_csv, Ok (line "5,6"));
    (a_csv, Ok (line "1,2"));
    (lit "src/notes.txt", Ok (line "skip me"));
    (b_csv, Ok (line "3,4")) ].

(** The [abc] bucket with true sizes and the terminal at end of input. *)
Definition abc_world (order : list nat) : World :=
  bucket_world abc (λ _, bucket_size abc) order (Raise EOFError).

(** The same bucket with [b.csv] unreadable. *)
Definition abc_b_unreadable : list (str * res bytes) :=
  [ (c_csv, Ok (line "5,6"));
    (a_csv, Ok (line "1,2"));
    (b_csv, Raise (TransportError "connection reset")) ].

(** Its world; the future of [b.csv] is yielded last. *)
Definition broken_world : World :=
  bucket_world abc_b_unreadable (λ _, bucket_size abc_b_unreadable) [2; 0; 1]
    (Raise EOFError).

(** A bucket with no CSV object. *)
Definition empty_world : World :=
  bucket_world [(lit "src/notes.txt", Ok (line "skip me"))]
    (λ _ _, not_found) [] (Raise EOFError).

(** The [abc] bucket when the size lookup of [a.csv] fails while estimating. *)
Definition size_error_world : World :=
  bucket_world abc
    (λ ph p, match ph with
             | Estimating =>
                 if decide (p = a_csv) then Raise (TransportError "size lookup failed")
                 else bucket_size abc p
             | Downloading => bucket_size abc p
             end)
    [0; 1; 2] (Raise EOFError).

(** The [abc] bucket reporting 40 GiB per object, with what [input] does at
    the prompt. *)
Definition big_world (response : res str) : World :=
  bucket_world abc (λ _ _, Ok (40 * 1024 ^ 3)%Z) [0; 1; 2] response.

(** The [abc] bucket when [b.csv] is reported with a size beyond the range
    of a float, and every read takes time. *)
Definition oversized_world : World :=
  timed (bucket_world abc
           (λ _ p, if decide (p = b_csv) then Ok (2 ^ 1100)%Z else bucket_size abc p)
           [0; 1; 2] (Raise EOFError)).

(** ** The settings and two more readings of a run *)

(** Lines 20-26: the module-level settings, from [os.getenv] (on the
    environment as it is once the optional [.env] file was loaded) and
    [int].  [int] is Python's, taken as it is. *)
Definition load_config (getenv : str → option str) (int : str → res Z) : res Config :=
  let source_bucket := getenv (lit "SOURCE_BUCKET") in
  let dest_bucket := getenv (lit "DEST_BUCKET") in
  let dest_filename :=
    default (lit "combined_output.csv.bz2") (getenv (lit "DEST_FILENAME")) in
  let gcs_prefix := default (lit "") (getenv (lit "GCS_PREFIX")) in
  max_workers ← int (default (lit "32") (getenv (lit "MAX_WORKERS")));
  memory_limit_gb ← int (default (lit "80") (getenv (lit "MEMORY_LIMIT_GB")));
  mret {| SOURCE_BUCKET := source_bucket;
          DEST_BUCKET := dest_bucket;
          DEST_FILENAME := dest_filename;
          GCS_PREFIX := gcs_prefix;
          MAX_WORKERS := max_workers;
          MEMORY_LIMIT_GB := memory_limit_gb |}.

(** The prefixes a run listed. *)
Definition find_calls (tr : list event) : list str :=
  omap (λ e, match e with FsFind q => Some q | _ => None end) tr.

(** How often a run asked for a confirmation. *)
Definition prompts (tr : list event) : nat :=
  length (omap (λ e, match e with InputPrompt => Some tt | _ => None end) tr).

(** An environment that sets nothing, and [int] on the two numerals the
    defaults need. *)
Definition nothing_set : str → option str := λ _, None.

Definition int_of_defaults (s : str) : res Z :=
  if decide (s = lit "32") then Ok 32%Z
  else if decide (s = lit "80") then Ok 80%Z
  else Raise ValueError.

(** The settings such an environment gives. *)
Definition default_config : Config :=
  {| SOURCE_BUCKET := None;
     DEST_BUCKET := None;
     DEST_FILENAME := lit "combined_output.csv.bz2";
     GCS_PREFIX := lit "";
     MAX_WORKERS := 32%Z;
     MEMORY_LIMIT_GB := 80%Z |}.

(** * Properties *)

(** ** Python's string operations on examples *)

Example endswith_csv : endswith (lit "src/a.csv") (lit ".csv") = true.
Proof. reflexivity. Qed.

Example endswith_short : endswith (lit "csv") (lit ".csv") = false.
Proof. reflexivity. Qed.

Example endswith_bz2 : endswith (lit "src/a.csv.bz2") (lit ".csv") = false.
Proof. reflexivity. Qed.

Example strip_answer : strip (lit "  y ") = lit "y" ∧ strip (lit "y es") = lit "y es".
Proof. split; reflexivity. Qed.

Example strip_blank : strip (lit "   ") = [].
Proof. reflexivity. Qed.

Example sort_paths :
  sort [lit "b.csv"; lit "a.csv"; lit "B.csv"; lit "a"]
  = [lit "B.csv"; lit "a"; lit "a.csv"; lit "b.csv"].
Proof. reflexivity. Qed.

Example abc_listing : csv_files_of abc.*1 = [a_csv; b_csv; c_csv].
Proof. reflexivity. Qed.

(** ** The order on paths and the listing *)

Lemma str_leb_total a b : str_leb a b = true ∨ str_leb b a = true.
Proof.
  revert b. induction a as [|x a IH]; intros [|y b]; simpl; auto.
  destruct (N.ltb_spec x y), (N.ltb_spec y x); auto; lia.
Qed.

Lemma str_leb_trans a b c :
  str_leb a b = true → str_leb b c = true → str_leb a c = true.
Proof.
  revert b c. induction a as [|x a IH]; intros [|y b] [|z c]; simpl; auto; try done.
  destruct (N.ltb_spec x y), (N.ltb_spec y x), (N.ltb_spec y z), (N.ltb_spec z y),
    (N.ltb_spec x z), (N.ltb_spec z x); try done; try lia.
  apply IH.
Qed.

Lemma str_leb_antisym a b : str_leb a b = true → str_leb b a = true → a = b.
Proof.
  revert b. induction a as [|x a IH]; intros [|y b]; simpl; try done.
  destruct (N.ltb_spec x y), (N.ltb_spec y x); try done; try lia.
  intros ? ?. f_equal; [lia | by apply IH].
Qed.

#[export] Instance str_le_total : Total str_le.
Proof. intros a b. apply str_leb_total. Qed.

#[export] Instance str_le_trans : Transitive str_le.
Proof. intros a b c. apply str_leb_trans. Qed.

#[export] Instance str_le_antisym : AntiSymm (=) str_le.
Proof. intros a b. apply str_leb_antisym. Qed.

(** [endswith] is the suffix relation. *)
Lemma endswith_suffix s suffix : endswith s suffix = true ↔ suffix `suffix_of` s.
Proof.
  unfold endswith. rewrite bool_decide_eq_true. split.
  - intros E. exists (take (length s - length suffix) s).
    rewrite <- E at 2. by rewrite take_drop.
  - intros [k ->]. rewrite length_app.
    replace (length k + length suffix - length suffix) with (length k) by lia.
    by rewrite drop_app_length.
Qed.

(** [sort] returns the one sorted arrangement of its argument, whatever the
    algorithm: a sorted permutation of a list of paths is unique. *)
Lemma sort_unique (l l' : list str) :
  l' ≡ₚ l → StronglySorted str_le l' → l' = sort l.
Proof.
  intros Hp Hs. apply (StronglySorted_unique str_le); [done | |].
  - apply (StronglySorted_merge_sort str_le).
  - rewrite Hp. symmetry. apply (merge_sort_Permutation str_le).
Qed.

(** ** Runs, step by step *)

Lemma uploads_app tr1 tr2 : uploads (tr1 ++ tr2) = uploads tr1 ++ uploads tr2.
Proof. apply omap_app. Qed.

Lemma submitted_app tr1 tr2 : submitted (tr1 ++ tr2) = submitted tr1 ++ submitted tr2.
Proof. apply omap_app. Qed.

Lemma uploads_printed (ms : list message) : uploads (Printed <$> ms) = [].
Proof. by induction ms. Qed.

Lemma uploads_submitted_from (k : nat) (files : list str) :
  uploads (imap (λ i, Submitted (k + i)) files) = [].
Proof.
  revert k. induction files as [|p files IH]; intros k; [done|].
  simpl. rewrite <- (IH (S k)). f_equal. apply imap_ext. intros; simpl.
  f_equal. lia.
Qed.

Lemma uploads_submitted (files : list str) : uploads (imap Submitted files) = [].
Proof. apply (uploads_submitted_from 0). Qed.

Lemma submitted_imap_from (k : nat) (files : list str) :
  submitted (imap (λ i, Submitted (k + i)) files) = imap (λ i p, (k + i, p)) files.
Proof.
  revert k. induction files as [|p files IH]; intros k; [done|].
  simpl. f_equal.
  rewrite <- (imap_ext (λ i, Submitted (S k + i))), IH by (intros; simpl; f_equal; lia).
  apply imap_ext. intros; simpl; f_equal; lia.
Qed.

Lemma submitted_imap (files : list str) :
  submitted (imap Submitted files) = imap pair files.
Proof. apply (submitted_imap_from 0). Qed.

Lemma filter_ext_elem {A} (P Q : A → Prop) `{!∀ x, Decision (P x), !∀ x, Decision (Q x)}
    (l : list A) :
  (∀ x, x ∈ l → P x ↔ Q x) → filter P l = filter Q l.
Proof.
  induction l as [|a l IH]; intros HPQ; [done|].
  rewrite !filter_cons, IH by (intros; apply HPQ; by right).
  destruct (decide (P a)) as [Hp|Hp], (decide (Q a)) as [Hq|Hq]; try done;
    exfalso; apply (HPQ a) in Hp || apply (HPQ a) in Hq; done || by left.
Qed.

Lemma omap_ext_elem {A B} (f g : A → option B) (l : list A) :
  (∀ x, x ∈ l → f x = g x) → omap f l = omap g l.
Proof.
  induction l as [|a l IH]; intros Hfg; [done|].
  csimpl. rewrite (Hfg a) by left.
  destruct (g a); [f_equal|]; apply IH; intros; apply Hfg; by right.
Qed.

Section Phases.
Context `{Platform}.
Variable cfg : Config.
Variable w : World.

(** *** Phase 2 of the high-RAM function *)

Lemma write_in_order_run (indices : list nat) (d : gmap nat bytes) (written : bytes) :
  NoDup indices →
  trace (write_in_order indices d written)
    = Printed ∘ MissingData <$> filter (λ i, d !! i = None) indices
  ∧ ∃ d', result (write_in_order indices d written)
    = Ok (d', written ++ concat (omap (λ i, d !! i) indices)).
Proof.
  revert d written. induction indices as [|i rest IH]; intros d written Hnd.
  { simpl. split; [done|]. exists d. by rewrite app_nil_r. }
  apply NoDup_cons in Hnd as [Hi Hnd]. simpl.
  rewrite filter_cons. destruct (d !! i) as [data|] eqn:Hd.
  - destruct (IH (delete i d) (written ++ data) Hnd) as [Htr [d' Hres]].
    rewrite decide_False by done.
    assert (∀ j, j ∈ rest → delete i d !! j = d !! j) as Hrest.
    { intros j Hj. apply lookup_delete_ne. by intros ->. }
    split.
    + rewrite Htr. f_equal. apply filter_ext_elem.
      intros j Hj. by rewrite Hrest.
    + exists d'. rewrite Hres. do 2 f_equal. rewrite <- app_assoc. f_equal.
      change (data ++ concat (omap (λ j, delete i d !! j) rest)
              = data ++ concat (omap (λ j, d !! j) rest)).
      do 2 f_equal. by apply omap_ext_elem.
  - destruct (IH d written Hnd) as [Htr [d' Hres]].
    rewrite decide_True by done.
    destruct (write_in_order rest d written) as [l' r]. simpl in *.
    split; [by rewrite Htr|]. by exists d'.
Qed.
Lemma omap_lookup_seq {A} (l : list A) : omap (λ i, l !! i) (seq 0 (length l)) = l.
Proof.
  induction l as [|b bodies IH] using rev_ind; [done|].
  rewrite length_app. replace (length bodies + length [b]) with (S (length bodies))
    by (simpl; lia).
  rewrite seq_S, omap_app. csimpl.
  rewrite list_lookup_middle by done. f_equal.
  rewrite <- IH at 2. apply omap_ext_elem. intros i Hi.
  apply elem_of_seq in Hi. apply lookup_app_l. lia.
Qed.

Lemma present_all (bodies : list bytes) (d : gmap nat bytes) :
  (∀ k, d !! k = bodies !! k) → present (length bodies) d = bodies.
Proof.
  intros Hd. unfold present.
  rewrite (omap_ext_elem _ (λ i, bodies !! i)) by (intros; apply Hd).
  apply omap_lookup_seq.
Qed.

Lemma missing_none (bodies : list bytes) (d : gmap nat bytes) :
  (∀ k, d !! k = bodies !! k) → missing (length bodies) d = [].
Proof.
  intros Hd. unfold missing.
  rewrite (filter_ext_elem _ (λ _, False)); [by induction (seq 0 (length bodies))|].
  intros i Hi. apply elem_of_seq in Hi. rewrite Hd.
  destruct (lookup_lt_is_Some_2 bodies i) as [b ->]; [lia|]. done.
Qed.

(** *** Phase 1 of the high-RAM function *)

Lemma download_entire_file_total (p : str) (i n n' : nat) (e : exn) :
  download_entire_file w p i n = Raise e → download_entire_file w p i n' = Raise e.
Proof. done. Qed.

(** A download that succeeds returns its own index and the bytes read;
    the size was known and, if the read took time, the throughput could be
    computed. *)
Lemma download_entire_file_ok_inv (p : str) (i n j : nat) (b : bytes) :
  download_entire_file w p i n = Ok (j, b) →
  j = i
  ∧ fs_read w p = Ok b
  ∧ ∃ s, fs_size w Downloading p = Ok s
         ∧ (download_takes_time w p = true →
            ∃ mb, int_truediv s (1024 * 1024) = Ok mb).
Proof.
  unfold download_entire_file.
  destruct (fs_size w Downloading p) as [s|e]; [|done].
  destruct (fs_read w p) as [b'|e]; [|done]. simpl.
  destruct (download_takes_time w p).
  - destruct (int_truediv s (1024 * 1024)) as [mb|e] eqn:Hmb; [|done].
    simpl. intros [= <- <-]. split; [done|]. split; [done|].
    exists s. split; [done|]. intros _. by exists mb.
  - simpl. intros [= <- <-]. split; [done|]. split; [done|].
    exists s. by split.
Qed.

(** Conversely. *)
Lemma download_entire_file_ok (p : str) (i n : nat) (b : bytes) (s : Z) :
  fs_size w Downloading p = Ok s →
  fs_read w p = Ok b →
  (download_takes_time w p = true → ∃ mb, int_truediv s (1024 * 1024) = Ok mb) →
  download_entire_file w p i n = Ok (i, b).
Proof.
  intros Hs Hb Hmb. unfold download_entire_file. rewrite Hs, Hb. simpl.
  destruct (download_takes_time w p); [|done].
  destruct Hmb as [mb ->]; done.
Qed.

(** When every download succeeds, the dict ends up holding, for each
    position the completion order names, the body of that position. *)
Lemma collect_ok (bodies : list bytes) (order : list nat) (d : gmap nat bytes) :
  ∃ d', collect (imap (λ i b, Ok (i, b)) bodies) order d = ([], Ok d')
      ∧ ∀ k, d' !! k = if decide (k ∈ order)
                       then from_option Some (d !! k) (bodies !! k)
                       else d !! k.
Proof.
  revert d. induction order as [|j order IH]; intros d.
  { exists d. split; [done|]. intros k. rewrite decide_False; [done|]. apply not_elem_of_nil. }
  simpl. rewrite list_lookup_imap. destruct (bodies !! j) as [b|] eqn:Hj; simpl.
  - destruct (IH (<[j:=b]> d)) as [d' [-> Hd']]. exists d'. split; [done|].
    intros k. rewrite Hd'. destruct (decide (k = j)) as [->|Hne].
    + rewrite lookup_insert_eq, Hj, (decide_True (P:=j ∈ j :: order)) by left.
      simpl. by destruct (decide (j ∈ order)).
    + rewrite lookup_insert_ne by done.
      destruct (decide (k ∈ order)) as [Hin|Hin].
      * by rewrite decide_True by (by right).
      * rewrite decide_False; [done|]. by intros [?|?]%elem_of_cons.
  - destruct (IH d) as [d' [-> Hd']]. exists d'. split; [done|].
    intros k. rewrite Hd'. destruct (decide (k = j)) as [->|Hne].
    + rewrite Hj, (decide_True (P:=j ∈ j :: order)) by left.
      simpl. by destruct (decide (j ∈ order)).
    + destruct (decide (k ∈ order)) as [Hin|Hin].
      * by rewrite decide_True by (by right).
      * rewrite decide_False; [done|]. by intros [?|?]%elem_of_cons.
Qed.

(** A failed download that [as_completed] yields ends the collection with an
    exception, after console output only. *)
Lemma collect_raises (futures : list (res (nat * bytes))) (order : list nat)
    (d : gmap nat bytes) (i : nat) (e : exn) :
  i ∈ order → futures !! i = Some (Raise e) →
  ∃ ms e', collect futures order d = (Printed <$> ms, Raise e').
Proof.
  revert d. induction order as [|j order IH]; intros d Hi Hf.
  { by apply elem_of_nil in Hi. }
  simpl. destruct (futures !! j) as [[[k b]|e1]|] eqn:Hj.
  - apply IH; [|done]. apply elem_of_cons in Hi as [->|?]; [congruence|done].
  - by exists [DownloadFailed e1], e1.
  - apply IH; [|done]. apply elem_of_cons in Hi as [->|?]; [congruence|done].
Qed.

(** *** The streaming function's collection *)

Lemma gather_ok (bodies : list bytes) (order : list nat) (all_data : list bytes) :
  gather (Ok <$> bodies) order all_data
  = ([], Ok (all_data ++ omap (λ j, bodies !! j) order)).
Proof.
  revert all_data. induction order as [|j order IH]; intros all_data.
  { simpl. by rewrite app_nil_r. }
  simpl. rewrite list_lookup_fmap. destruct (bodies !! j) as [b|] eqn:Hj; simpl.
  - rewrite IH, <- app_assoc. done.
  - by rewrite IH.
Qed.

Lemma gather_raises (futures : list (res bytes)) (order : list nat)
    (all_data : list bytes) (i : nat) (e : exn) :
  i ∈ order → futures !! i = Some (Raise e) →
  ∃ e', gather futures order all_data = ([], Raise e').
Proof.
  revert all_data. induction order as [|j order IH]; intros all_data Hi Hf.
  { by apply elem_of_nil in Hi. }
  simpl. destruct (futures !! j) as [[b|e1]|] eqn:Hj.
  - apply IH; [|done]. apply elem_of_cons in Hi as [->|?]; [congruence|done].
  - by exists e1.
  - apply IH; [|done]. apply elem_of_cons in Hi as [->|?]; [congruence|done].
Qed.

(** *** The estimator *)

Lemma sum_sizes_ok (files : list str) (sizes : list Z) (acc : Z) :
  Forall2 (λ f s, fs_size w Estimating f = Ok s) files sizes →
  sum_sizes w files acc = (FsSize <$> files, Ok (acc + total sizes)%Z).
Proof.
  intros Hs. revert acc. induction Hs as [|f s files sizes Hf _ IH]; intros acc.
  { cbn [sum_sizes total foldr]. by rewrite Z.add_0_r. }
  cbn [sum_sizes total foldr]. rewrite Hf. simpl. rewrite IH.
  by rewrite <- Z.add_assoc.
Qed.

Lemma sum_sizes_raises (pre post : list str) (f : str) (e : exn) (sizes : list Z)
    (acc : Z) :
  Forall2 (λ f s, fs_size w Estimating f = Ok s) pre sizes →
  fs_size w Estimating f = Raise e →
  sum_sizes w (pre ++ f :: post) acc = (FsSize <$> pre ++ [f], Raise e).
Proof.
  intros Hs He. revert acc. induction Hs as [|f' s files sizes Hf _ IH]; intros acc.
  { simpl. by rewrite He. }
  simpl. rewrite Hf. simpl. by rewrite IH.
Qed.

Lemma sum_sizes_events (files : list str) (acc : Z) :
  Forall estimator_event (trace (sum_sizes w files acc)).
Proof.
  revert acc. induction files as [|f files IH]; intros acc; [by constructor|].
  simpl. destruct (fs_size w Estimating f) as [s|e]; simpl.
  - specialize (IH (acc + s)%Z). destruct (sum_sizes w files (acc + s)%Z).
    by constructor.
  - by repeat constructor.
Qed.

Lemma estimate_total (csv_files : list str) :
  ∃ tr g, estimate cfg w csv_files = (tr, Ok g) ∧ Forall estimator_event tr.
Proof.
  unfold estimate.
  pose proof (sum_sizes_events (take (10 `min` length csv_files) csv_files) 0) as Hev.
  destruct (sum_sizes w _ 0%Z) as [tr [sample_size|e]]; simpl in *.
  2:{ eexists _, _. split; [done|]. apply Forall_app. split; [done|by repeat constructor]. }
  destruct (int_truediv _ _) as [avg|e]; simpl.
  2:{ eexists _, _. split; [done|]. rewrite app_nil_r.
      apply Forall_app. split; [done|by repeat constructor]. }
  destruct (float_gt_int _ _); simpl.
  2:{ eexists _, _. split; [done|]. by rewrite !app_nil_r. }
  destruct (input w) as [response|e]; simpl.
  - destruct (decide _); simpl; eexists _, _; (split; [done|]);
      rewrite ?app_nil_r; apply Forall_app; (split; [done|by repeat constructor]).
  - eexists _, _. split; [done|]. rewrite ?app_nil_r.
    rewrite <- app_assoc. apply Forall_app. split; [done|by repeat constructor].
Qed.

Lemma estimator_events_no_upload (tr : list event) :
  Forall estimator_event tr → uploads tr = [] ∧ submitted tr = [].
Proof.
  induction 1 as [|ev tr Hev _ [IH1 IH2]]; [done|].
  destruct ev; try done.
Qed.

(** *** The shape of a run *)

Lemma new_executor_run :
  new_executor cfg =
  if decide (MAX_WORKERS cfg ≤ 0)%Z
  then ([NewExecutor (MAX_WORKERS cfg)], Raise ValueError)
  else ([NewExecutor (MAX_WORKERS cfg)], Ok tt).
Proof. unfold new_executor. simpl. by destruct (decide _). Qed.

Lemma download_all_run (csv_files : list str) :
  download_all cfg w csv_files =
  if decide (MAX_WORKERS cfg ≤ 0)%Z
  then ([NewExecutor (MAX_WORKERS cfg)], Raise ValueError)
  else
    let futures :=
      imap (λ i p, download_entire_file w p i (length csv_files)) csv_files in
    let c := collect futures (as_completed w) ∅ in
    (NewExecutor (MAX_WORKERS cfg) :: imap Submitted csv_files ++ trace c, result c).
Proof.
  unfold download_all. rewrite new_executor_run.
  destruct (decide _); [done|]. simpl. by destruct (collect _ _ _).
Qed.

Lemma process_all_run (csv_files : list str) :
  process_all cfg w csv_files =
  if decide (MAX_WORKERS cfg ≤ 0)%Z
  then ([NewExecutor (MAX_WORKERS cfg)], Raise ValueError)
  else
    let g := gather (process_file_fast w <$> csv_files) (as_completed w) [] in
    (NewExecutor (MAX_WORKERS cfg) :: imap Submitted csv_files ++ trace g, result g).
Proof.
  unfold process_all. rewrite new_executor_run.
  destruct (decide _); [done|]. simpl. by destruct (gather _ _ _).
Qed.

Lemma high_ram_run :
  combine_and_upload_high_ram cfg w =
  let opened := [NewFileSystem high_ram_fs_options; FsFind (prefix_path cfg)] in
  match fs_find w (prefix_path cfg) with
  | Raise e => (opened, Raise e)
  | Ok found =>
      let csv_files := csv_files_of found in
      if decide (csv_files = []) then (opened ++ [Printed NoCsvFilesFound], Ok tt)
      else
        match estimate cfg w csv_files with
        | (tr, Ok Proceed) =>
            let rest := download_compress_upload cfg w csv_files in
            (opened ++ tr ++ trace rest, result rest)
        | (tr, Ok ReturnEarly) => (opened ++ tr, Ok tt)
        | (tr, Raise e) => (opened ++ tr, Raise e)
        end
  end.
Proof.
  unfold combine_and_upload_high_ram, list_csv_files.
  destruct (fs_find w (prefix_path cfg)) as [found|e]; [|done]. simpl.
  destruct (decide (csv_files_of found = [])); [done|].
  destruct (estimate cfg w (csv_files_of found)) as [tr [[|]|e]]; simpl; [|by rewrite app_nil_r|done].
  by destruct (download_compress_upload _ _ _).
Qed.

Lemma streaming_run :
  combine_and_upload_streaming_chunked cfg w =
  let opened := [NewFileSystem streaming_fs_options; FsFind (prefix_path cfg)] in
  match fs_find w (prefix_path cfg) with
  | Raise e => (opened, Raise e)
  | Ok found =>
      match process_all cfg w (csv_files_of found) with
      | (tr, Ok all_data) =>
          let up := upload cfg w None (bz2_compress 9 (concat all_data)) in
          (opened ++ tr ++ trace up, result up)
      | (tr, Raise e) => (opened ++ tr, Raise e)
      end
  end.
Proof.
  unfold combine_and_upload_streaming_chunked, list_csv_files.
  destruct (fs_find w (prefix_path cfg)) as [found|e]; [|done]. simpl.
  destruct (process_all cfg w (csv_files_of found)) as [tr [all_data|e]]; simpl; [|done].
  by destruct (upload_from_file _ _).
Qed.

Lemma compress_in_order_run (n : nat) (d : gmap nat bytes) :
  compress_in_order n d
  = (Printed ∘ MissingData <$> missing n d, Ok (bz2_compress 9 (concat (present n d)))).
Proof.
  unfold compress_in_order.
  destruct (write_in_order_run (seq 0 n) d [] (NoDup_seq 0 n)) as [Htr [d' Hres]].
  destruct (write_in_order (seq 0 n) d []) as [tr r]. simpl in *. subst.
  cbn. by rewrite app_nil_r.
Qed.

Lemma compress_and_upload_run (n : nat) (d : gmap nat bytes) :
  let u := high_ram_upload cfg (bz2_compress 9 (concat (present n d))) in
  compress_and_upload cfg w n d
  = ((Printed ∘ MissingData <$> missing n d) ++ [UploadFromFile u],
     upload_from_file w u).
Proof.
  unfold compress_and_upload. rewrite compress_in_order_run. simpl.
  unfold high_ram_upload. by destruct (upload_from_file _ _).
Qed.

Lemma download_compress_upload_run (csv_files : list str) :
  download_compress_upload cfg w csv_files =
  match download_all cfg w csv_files with
  | (tr, Ok d) =>
      let cu := compress_and_upload cfg w (length csv_files) d in
      (tr ++ trace cu, result cu)
  | (tr, Raise e) => (tr, Raise e)
  end.
Proof.
  unfold download_compress_upload.
  destruct (download_all cfg w csv_files) as [tr [d|e]]; simpl; [|done].
  by destruct (compress_and_upload _ _ _ _).
Qed.

Lemma collect_events (futures : list (res (nat * bytes))) (order : list nat)
    (d : gmap nat bytes) :
  ∃ ms, trace (collect futures order d) = Printed <$> ms.
Proof.
  revert d. induction order as [|j order IH]; intros d; [by exists []|].
  simpl. destruct (futures !! j) as [[[k b]|e]|]; [apply IH| |apply IH].
  by exists [DownloadFailed e].
Qed.

Lemma gather_events (futures : list (res bytes)) (order : list nat)
    (all_data : list bytes) :
  trace (gather futures order all_data) = [].
Proof.
  revert all_data. induction order as [|j order IH]; intros all_data; [done|].
  simpl. destruct (futures !! j) as [[b|e]|]; [apply IH|done|apply IH].
Qed.

Lemma submitted_printed (ms : list message) : submitted (Printed <$> ms) = [].
Proof. by induction ms. Qed.

Lemma elem_of_imap_pair (csv_files : list str) (i : nat) (p : str) :
  (i, p) ∈ imap pair csv_files ↔ csv_files !! i = Some p.
Proof.
  rewrite elem_of_lookup_imap. split.
  - by intros (j & q & [= -> ->] & ?).
  - intros ?. by exists i, p.
Qed.

Lemma trace_pair {A} (tr : list event) (r : res A) : trace (tr, r) = tr.
Proof. done. Qed.

Lemma result_pair {A} (tr : list event) (r : res A) : result (tr, r) = r.
Proof. done. Qed.

Lemma compress_and_upload_submitted (n : nat) (d : gmap nat bytes) :
  submitted (trace (compress_and_upload cfg w n d)) = [].
Proof.
  rewrite compress_and_upload_run. cbv zeta.
  by rewrite trace_pair, submitted_app, list_fmap_compose, submitted_printed.
Qed.

(** The retrievals a run of phases 1 to 3 submits are those of the listing. *)
Lemma download_compress_upload_submitted (csv_files : list str) (i : nat) (p : str) :
  (i, p) ∈ submitted (trace (download_compress_upload cfg w csv_files)) →
  ¬ (MAX_WORKERS cfg ≤ 0)%Z ∧ csv_files !! i = Some p.
Proof.
  rewrite download_compress_upload_run, download_all_run.
  destruct (decide (MAX_WORKERS cfg ≤ 0)%Z) as [|Hw]; [by intros ?%elem_of_nil|].
  cbv zeta. set (c := collect _ _ _).
  destruct (collect_events
    (imap (λ i p, download_entire_file w p i (length csv_files)) csv_files)
    (as_completed w) ∅) as [ms Hms].
  fold c in Hms. rewrite Hms. intros Hin. split; [done|].
  apply elem_of_imap_pair. revert Hin.
  change (NewExecutor ?x :: ?l) with ([NewExecutor x] ++ l).
  destruct (result c) as [d|e]; rewrite trace_pair, !submitted_app,
    ?compress_and_upload_submitted, submitted_imap, submitted_printed, ?app_nil_r;
    by intros Hin.
Qed.

(** A retrieval that was submitted by the high-RAM function: the listing
    succeeded, the gate was passed and the pool was created. *)
Lemma high_ram_submitted_inv (i : nat) (p : str) :
  (i, p) ∈ submitted (trace (combine_and_upload_high_ram cfg w)) →
  ∃ found tr,
    fs_find w (prefix_path cfg) = Ok found
    ∧ csv_files_of found ≠ []
    ∧ estimate cfg w (csv_files_of found) = (tr, Ok Proceed)
    ∧ ¬ (MAX_WORKERS cfg ≤ 0)%Z
    ∧ csv_files_of found !! i = Some p.
Proof.
  rewrite high_ram_run. cbv zeta.
  destruct (fs_find w (prefix_path cfg)) as [found|e]; [|by intros ?%elem_of_nil].
  destruct (decide (csv_files_of found = [])) as [|Hne]; [by intros ?%elem_of_nil|].
  destruct (estimate_total (csv_files_of found)) as (tr & g & Hest & Hev).
  apply estimator_events_no_upload in Hev as [_ Hsub].
  rewrite Hest. destruct g; rewrite trace_pair, !submitted_app, Hsub.
  2:{ by intros ?%elem_of_nil. }
  intros Hin. apply download_compress_upload_submitted in Hin as [Hw Hp].
  by exists found, tr.
Qed.

(** The same for the streaming function. *)
Lemma streaming_submitted_inv (i : nat) (p : str) :
  (i, p) ∈ submitted (trace (combine_and_upload_streaming_chunked cfg w)) →
  ∃ found,
    fs_find w (prefix_path cfg) = Ok found
    ∧ ¬ (MAX_WORKERS cfg ≤ 0)%Z
    ∧ csv_files_of found !! i = Some p.
Proof.
  rewrite streaming_run. cbv zeta.
  destruct (fs_find w (prefix_path cfg)) as [found|e]; [|by intros ?%elem_of_nil].
  rewrite process_all_run.
  destruct (decide (MAX_WORKERS cfg ≤ 0)%Z) as [|Hw]; [by intros ?%elem_of_nil|].
  cbv zeta. rewrite gather_events, app_nil_r. intros Hin. exists found.
  split; [done|]. split; [done|]. apply elem_of_imap_pair. revert Hin.
  change (NewExecutor ?x :: ?l) with ([NewExecutor x] ++ l).
  destruct (result _) as [all_data|e]; rewrite trace_pair, !submitted_app,
    submitted_imap; simpl; rewrite ?app_nil_r; by intros Hin.
Qed.

(** ** The claims *)

(** C3 (amended).  When the payload of an expected index is absent at the
    time the high-RAM function compresses, no error is raised for it: the
    loop prints one warning per missing index and writes the payloads that
    are present, in index order, and the function goes on to upload the
    compression of that shorter stream. *)
Theorem missing_payload_is_skipped (n : nat) (file_data_dict : gmap nat bytes) :
  let u := high_ram_upload cfg (bz2_compress 9 (concat (present n file_data_dict))) in
  compress_and_upload cfg w n file_data_dict
  = ((Printed ∘ MissingData <$> missing n file_data_dict) ++ [UploadFromFile u],
     upload_from_file w u).
Proof.
  cbv zeta. unfold compress_and_upload, compress_in_order.
  destruct (write_in_order_run (seq 0 n) file_data_dict [] (NoDup_seq 0 n))
    as [Htr [d' Hres]].
  destruct (write_in_order (seq 0 n) file_data_dict []) as [tr r].
  unfold trace, result in Htr, Hres. simpl in Htr, Hres. subst tr r.
  cbn. rewrite app_nil_r. unfold high_ram_upload, present.
  by destruct (upload_from_file w _).
Qed.

(** C4.  A retrieval that was handed to the pool and fails, and whose future
    [as_completed] yields, makes the run end with an exception, and the run
    issues no upload: the destination is left as it was.  This holds for the
    high-RAM function, whose retrieval is [download_entire_file], and for
    the streaming function, whose retrieval is [process_file_fast]. *)
Theorem retrieval_failure_aborts (i : nat) (p : str) (e : exn) (total_files : nat) :
  i ∈ as_completed w →
  ((i, p) ∈ submitted (trace (combine_and_upload_high_ram cfg w)) →
   download_entire_file w p i total_files = Raise e →
   (∃ e', result (combine_and_upload_high_ram cfg w) = Raise e')
   ∧ uploads (trace (combine_and_upload_high_ram cfg w)) = [])
  ∧
  ((i, p) ∈ submitted (trace (combine_and_upload_streaming_chunked cfg w)) →
   process_file_fast w p = Raise e →
   (∃ e', result (combine_and_upload_streaming_chunked cfg w) = Raise e')
   ∧ uploads (trace (combine_and_upload_streaming_chunked cfg w)) = []).
Proof.
  intros Hin. split; intros Hsub Hfail.
  - destruct (high_ram_submitted_inv i p Hsub)
      as (found & tr & Hfind & Hne & Hest & Hw & Hp).
    destruct (estimate_total (csv_files_of found)) as (tr' & g & Hest' & Hev).
    rewrite Hest in Hest'. injection Hest' as <- <-.
    apply estimator_events_no_upload in Hev as [Hup _].
    rewrite high_ram_run. cbv zeta.
    rewrite Hfind, decide_False, Hest by done.
    rewrite download_compress_upload_run, download_all_run, decide_False by done.
    cbv zeta.
    destruct (collect_raises
      (imap (λ i p, download_entire_file w p i (length (csv_files_of found)))
         (csv_files_of found)) (as_completed w) ∅ i e Hin) as (ms & e' & Hc).
    { rewrite list_lookup_imap, Hp. simpl. f_equal.
      by apply (download_entire_file_total p i total_files). }
    rewrite Hc, !trace_pair, !result_pair. split; [by exists e'|].
    change (NewExecutor ?x :: ?l) with ([NewExecutor x] ++ l).
    by rewrite !trace_pair, !uploads_app, Hup, uploads_submitted, uploads_printed.
  - destruct (streaming_submitted_inv i p Hsub) as (found & Hfind & Hw & Hp).
    rewrite streaming_run. cbv zeta. rewrite Hfind, process_all_run, decide_False by done.
    cbv zeta.
    destruct (gather_raises (process_file_fast w <$> csv_files_of found)
      (as_completed w) [] i e Hin) as (e' & Hg).
    { by rewrite list_lookup_fmap, Hp, <- Hfail. }
    rewrite Hg, !trace_pair, !result_pair. split; [by exists e'|].
    change (NewExecutor ?x :: ?l) with ([NewExecutor x] ++ l).
    by rewrite ?trace_pair, !uploads_app, uploads_submitted.
Qed.

End Phases.

(** The index of [b.csv] is withheld: the run returns normally, having
    warned, and uploads the bodies of [a.csv] and [c.csv] only. *)
Lemma withheld_index_is_not_an_error :
  let run := combine_and_upload_high_ram example_config (abc_world [0; 2]) in
  result run = Ok tt
  ∧ printed (trace run) = [MissingData 1]
  ∧ bz2_decompress ∘ up_data <$> uploads (trace run) = [line "1,2" ++ line "5,6"].
Proof. by vm_compute. Qed.

(** [b.csv], submitted at position 1, cannot be read: both functions raise
    and neither uploads. *)
Lemma retrieval_failure_aborts_witness :
  ((∃ e', result (combine_and_upload_high_ram example_config broken_world) = Raise e')
   ∧ uploads (trace (combine_and_upload_high_ram example_config broken_world)) = [])
  ∧
  ((∃ e', result (combine_and_upload_streaming_chunked example_config broken_world)
          = Raise e')
   ∧ uploads (trace (combine_and_upload_streaming_chunked example_config broken_world))
     = []).
Proof.
  assert (1 ∈ as_completed broken_world) as Hin.
  { apply list_elem_of_In. vm_compute. tauto. }
  destruct (retrieval_failure_aborts example_config broken_world 1 b_csv
              (TransportError "connection reset") 3 Hin) as [Hhigh Hstream].
  split.
  - apply Hhigh; [|by vm_compute]. apply list_elem_of_In. vm_compute. tauto.
  - apply Hstream; [|by vm_compute]. apply list_elem_of_In. vm_compute. tauto.
Defined.

Section Gate.
Context `{Platform}.
Variable cfg : Config.
Variable w : World.

Lemma size_queries_sample (files : list str) (tr : list event) :
  size_queries ((FsSize <$> files) ++ tr) = files ++ size_queries tr.
Proof. induction files as [|f files IH]; [done|]. simpl. by rewrite <- IH. Qed.

(** The estimator when every sampled size is known and the average is a
    float: one size query per sampled file in order, then the comparison of
    the projection with the budget decides whether the user is asked. *)
Lemma estimate_sampled (csv_files : list str) (sizes : list Z) (avg : float) :
  let sample_files := take (10 `min` length csv_files) csv_files in
  Forall2 (λ f s, fs_size w Estimating f = Ok s) sample_files sizes →
  int_truediv (total sizes) (Z.of_nat (length sample_files)) = Ok avg →
  let projected_gb :=
    float_div_int (float_mul_int avg (Z.of_nat (length csv_files))) (1024 ^ 3) in
  estimate cfg w csv_files =
  if float_gt_int projected_gb (MEMORY_LIMIT_GB cfg) then
    let asked := (FsSize <$> sample_files) ++ [Printed ExceedsMemoryLimit; InputPrompt] in
    match input w with
    | Ok response =>
        (asked, Ok (if decide (str_lower (strip response) ≠ lit "y")
                    then ReturnEarly else Proceed))
    | Raise e => (asked ++ [Printed (CouldNotEstimateSize e)], Ok Proceed)
    end
  else (FsSize <$> sample_files, Ok Proceed).
Proof.
  intros sample_files Hsizes Havg projected_gb. unfold estimate.
  fold sample_files. rewrite (sum_sizes_ok w _ _ _ Hsizes), Z.add_0_l. simpl.
  rewrite Havg. simpl. fold projected_gb.
  destruct (float_gt_int projected_gb (MEMORY_LIMIT_GB cfg)); simpl.
  2:{ by rewrite !app_nil_r. }
  destruct (input w) as [response|e]; simpl; [|done].
  by destruct (decide _).
Qed.

(** The estimator when a sampled size lookup raises. *)
Lemma estimate_size_error (csv_files pre post : list str) (f : str) (sizes : list Z)
    (e : exn) :
  take (10 `min` length csv_files) csv_files = pre ++ f :: post →
  Forall2 (λ f s, fs_size w Estimating f = Ok s) pre sizes →
  fs_size w Estimating f = Raise e →
  estimate cfg w csv_files
  = ((FsSize <$> pre ++ [f]) ++ [Printed (CouldNotEstimateSize e)], Ok Proceed).
Proof.
  intros Hsample Hsizes He. unfold estimate.
  by rewrite Hsample, (sum_sizes_raises w pre post f e sizes 0 Hsizes He).
Qed.

(** C6.  For a non-empty sorted listing of [N] paths the estimator samples
    the first [min 10 N] of them.  When their sizes are known it asks for
    exactly these sizes, in order, averages them, projects the average times
    [N] (in GiB) and compares the projection with [MEMORY_LIMIT_GB]: at or
    below the budget it proceeds silently, above it it warns and prompts.
    When a size lookup of the sample raises, the estimate is given up with a
    warning and the function goes on with the download, compression and
    upload phases.  In no case does an exception leave the estimator. *)
Theorem size_estimator_contract (found : list str) :
  fs_find w (prefix_path cfg) = Ok found →
  let csv_files := csv_files_of found in
  let N := length csv_files in
  let sample_files := take (10 `min` N) csv_files in
  csv_files ≠ [] →
  length sample_files = 10 `min` N
  ∧ (∃ tr g, estimate cfg w csv_files = (tr, Ok g))
  ∧ (∀ sizes avg,
      Forall2 (λ f s, fs_size w Estimating f = Ok s) sample_files sizes →
      int_truediv (total sizes) (Z.of_nat (length sample_files)) = Ok avg →
      let projected_gb := float_div_int (float_mul_int avg (Z.of_nat N)) (1024 ^ 3) in
      size_queries (trace (estimate cfg w csv_files)) = sample_files
      ∧ (float_gt_int projected_gb (MEMORY_LIMIT_GB cfg) = false →
         estimate cfg w csv_files = (FsSize <$> sample_files, Ok Proceed))
      ∧ (float_gt_int projected_gb (MEMORY_LIMIT_GB cfg) = true →
         (FsSize <$> sample_files) ++ [Printed ExceedsMemoryLimit; InputPrompt]
           `prefix_of` trace (estimate cfg w csv_files)))
  ∧ (∀ pre f post sizes e,
      sample_files = pre ++ f :: post →
      Forall2 (λ f s, fs_size w Estimating f = Ok s) pre sizes →
      fs_size w Estimating f = Raise e →
      let warned := (FsSize <$> pre ++ [f]) ++ [Printed (CouldNotEstimateSize e)] in
      let rest := download_compress_upload cfg w csv_files in
      estimate cfg w csv_files = (warned, Ok Proceed)
      ∧ combine_and_upload_high_ram cfg w
        = ([NewFileSystem high_ram_fs_options; FsFind (prefix_path cfg)]
             ++ warned ++ trace rest,
           result rest)).
Proof.
  intros Hfind csv_files N sample_files Hne.
  split; [|split; [|split]].
  - unfold sample_files. rewrite length_take. unfold N. lia.
  - destruct (estimate_total cfg w csv_files) as (tr & g & Hest & _). eauto.
  - intros sizes avg Hsizes Havg projected_gb.
    rewrite (estimate_sampled csv_files sizes avg Hsizes Havg).
    fold N sample_files projected_gb.
    destruct (float_gt_int projected_gb (MEMORY_LIMIT_GB cfg)).
    + cbv zeta. split; [|split; [done|intros _]].
      * destruct (input w); rewrite trace_pair, <- ?app_assoc, size_queries_sample;
          simpl; by rewrite app_nil_r.
      * destruct (input w); rewrite trace_pair; [done|]. by apply prefix_app_r.
    + split; [|split; [done|done]].
      rewrite trace_pair, <- (app_nil_r (FsSize <$> _)), size_queries_sample.
      simpl. by rewrite app_nil_r.
  - intros pre f post sizes e Hsample Hsizes He warned rest.
    pose proof (estimate_size_error csv_files pre post f sizes e Hsample Hsizes He)
      as Hest.
    split; [done|]. rewrite high_ram_run. cbv zeta.
    rewrite Hfind. fold csv_files. by rewrite decide_False, Hest.
Qed.


End Gate.

(** On the [abc] bucket the three sizes are sampled and the projection, 12
    bytes, is within the budget; when the size lookup of [a.csv] fails the
    run warns and still downloads, compresses and uploads. *)
Lemma size_estimator_contract_witness :
  estimate example_config (abc_world [0; 1; 2]) [a_csv; b_csv; c_csv]
    = (FsSize <$> [a_csv; b_csv; c_csv], Ok Proceed)
  ∧ combine_and_upload_high_ram example_config size_error_world
    = ([NewFileSystem high_ram_fs_options; FsFind (lit "src/"); FsSize a_csv;
        Printed (CouldNotEstimateSize (TransportError "size lookup failed"))]
         ++ trace (download_compress_upload example_config size_error_world
                     [a_csv; b_csv; c_csv]),
       Ok tt).
Proof.
  split.
  - destruct (@size_estimator_contract reference_platform example_config (abc_world [0; 1; 2]) abc.*1 eq_refl)
      as (_ & _ & Hsampled & _); [by vm_compute|].
    destruct (Hsampled [4; 4; 4]%Z (S754_finite false 4503599627370496 (-50)))
      as (_ & Hwithin & _).
    + vm_compute. by repeat constructor.
    + by vm_compute.
    + apply Hwithin. by vm_compute.
  - destruct (@size_estimator_contract reference_platform example_config size_error_world abc.*1 eq_refl)
      as (_ & _ & _ & Hsoft); [by vm_compute|].
    destruct (Hsoft [] a_csv [b_csv; c_csv] []
                (TransportError "size lookup failed")) as [_ Hrun].
    + by vm_compute.
    + constructor.
    + by vm_compute.
    + rewrite Hrun. by vm_compute.
Defined.



(** ** The shape of every run *)

Lemma inner_events_quiet (tr : list event) :
  Forall inner_event tr → fs_options tr = [] ∧ uploads tr = [].
Proof.
  induction 1 as [|ev tr Hev _ [IH1 IH2]]; [done|]. by destruct ev.
Qed.

Lemma estimator_events_inner (tr : list event) :
  Forall estimator_event tr → Forall inner_event tr.
Proof. intros Htr. eapply Forall_impl; [exact Htr|]. by intros []. Qed.

Lemma inner_printed (ms : list message) : Forall inner_event (Printed <$> ms).
Proof. apply Forall_fmap, Forall_true. done. Qed.

Lemma inner_submitted (files : list str) : Forall inner_event (imap Submitted files).
Proof.
  apply Forall_forall. intros ev (i & p & -> & _)%elem_of_lookup_imap. done.
Qed.

Lemma fs_options_app tr1 tr2 : fs_options (tr1 ++ tr2) = fs_options tr1 ++ fs_options tr2.
Proof. apply omap_app. Qed.

Section Shape.
Context `{Platform}.
Variable cfg : Config.
Variable w : World.

(** A high-RAM run sets up the file system with its options, then produces
    inner events, then uploads at most once, with the high-RAM upload call. *)
Lemma high_ram_shape :
  ∃ inner ups,
    trace (combine_and_upload_high_ram cfg w)
      = NewFileSystem high_ram_fs_options :: inner ++ (UploadFromFile <$> ups)
    ∧ Forall inner_event inner
    ∧ (ups = [] ∨ ∃ output_buffer, ups = [high_ram_upload cfg output_buffer]).
Proof.
  rewrite high_ram_run. cbv zeta.
  destruct (fs_find w (prefix_path cfg)) as [found|e].
  2:{ exists [FsFind (prefix_path cfg)], []. by repeat constructor. }
  destruct (decide (csv_files_of found = [])).
  { exists [FsFind (prefix_path cfg); Printed NoCsvFilesFound], [].
    by repeat constructor. }
  destruct (estimate_total cfg w (csv_files_of found)) as (tr & g & -> & Hev).
  apply estimator_events_inner in Hev. destruct g.
  2:{ exists (FsFind (prefix_path cfg) :: tr), []. rewrite trace_pair.
      split; [by rewrite app_nil_r|]. split; [by constructor|by left]. }
  rewrite download_compress_upload_run, download_all_run.
  destruct (decide (MAX_WORKERS cfg ≤ 0)%Z).
  { exists (FsFind (prefix_path cfg) :: tr ++ [NewExecutor (MAX_WORKERS cfg)]), [].
    rewrite !trace_pair. split; [by rewrite app_nil_r|]. split; [|by left].
    constructor; [done|]. apply Forall_app. by repeat constructor. }
  cbv zeta.
  set (futures := imap (λ i p, download_entire_file w p i _) (csv_files_of found)).
  destruct (collect_events futures (as_completed w) ∅) as [ms Hms].
  rewrite Hms. destruct (result _) as [d|e].
  - rewrite compress_and_upload_run. cbv zeta. rewrite !trace_pair.
    eexists (FsFind (prefix_path cfg) :: tr ++ NewExecutor (MAX_WORKERS cfg)
               :: imap Submitted (csv_files_of found) ++ (Printed <$> ms)
               ++ (Printed ∘ MissingData <$> _)), [_].
    split; [|split; [|right; by eexists]].
    + simpl. f_equal. f_equal. rewrite <- !app_assoc. simpl.
      by rewrite <- !app_assoc.
    + constructor; [done|]. apply Forall_app. split; [done|].
      constructor; [done|]. apply Forall_app. split; [apply inner_submitted|].
      apply Forall_app. split; [apply inner_printed|].
      rewrite list_fmap_compose. apply inner_printed.
  - rewrite !trace_pair.
    exists (FsFind (prefix_path cfg) :: tr ++ NewExecutor (MAX_WORKERS cfg)
              :: imap Submitted (csv_files_of found) ++ (Printed <$> ms)), [].
    split; [by rewrite app_nil_r|]. split; [|by left].
    constructor; [done|]. apply Forall_app. split; [done|].
    constructor; [done|]. apply Forall_app. split; [apply inner_submitted|].
    apply inner_printed.
Qed.

Lemma upload_streaming_run (output_buffer : bytes) :
  upload cfg w None output_buffer
  = ([UploadFromFile (streaming_upload cfg output_buffer)],
     upload_from_file w (streaming_upload cfg output_buffer)).
Proof. unfold upload, streaming_upload. simpl. by destruct (upload_from_file w _). Qed.

(** A streaming run has the same shape with its own options and upload call. *)
Lemma streaming_shape :
  ∃ inner ups,
    trace (combine_and_upload_streaming_chunked cfg w)
      = NewFileSystem streaming_fs_options :: inner ++ (UploadFromFile <$> ups)
    ∧ Forall inner_event inner
    ∧ (ups = [] ∨ ∃ output_buffer, ups = [streaming_upload cfg output_buffer]).
Proof.
  rewrite streaming_run. cbv zeta.
  destruct (fs_find w (prefix_path cfg)) as [found|e].
  2:{ exists [FsFind (prefix_path cfg)], []. by repeat constructor. }
  rewrite process_all_run.
  destruct (decide (MAX_WORKERS cfg ≤ 0)%Z).
  { exists [FsFind (prefix_path cfg); NewExecutor (MAX_WORKERS cfg)], [].
    by repeat constructor. }
  cbv zeta. rewrite gather_events, app_nil_r. destruct (result _) as [all_data|e].
  - eexists (FsFind (prefix_path cfg) :: NewExecutor (MAX_WORKERS cfg)
               :: imap Submitted (csv_files_of found)), [_].
    split; [|split; [|right; by eexists]].
    + by rewrite upload_streaming_run, !trace_pair.
    + do 2 (constructor; [done|]). apply inner_submitted.
  - exists (FsFind (prefix_path cfg) :: NewExecutor (MAX_WORKERS cfg)
              :: imap Submitted (csv_files_of found)), [].
    rewrite trace_pair. split; [by rewrite app_nil_r|]. split; [|by left].
    do 2 (constructor; [done|]). apply inner_submitted.
Qed.

Lemma uploads_of_upload_events (ups : list UploadCall) :
  uploads (UploadFromFile <$> ups) = ups ∧ fs_options (UploadFromFile <$> ups) = [].
Proof.
  induction ups as [|u ups [IH1 IH2]]; [done|].
  split; [|exact IH2].
  change (u :: uploads (UploadFromFile <$> ups) = u :: ups). by rewrite IH1.
Qed.

Lemma shape_options_uploads (o : FsOptions) (inner : list event) (ups : list UploadCall) :
  Forall inner_event inner →
  fs_options (NewFileSystem o :: inner ++ (UploadFromFile <$> ups)) = [o]
  ∧ uploads (NewFileSystem o :: inner ++ (UploadFromFile <$> ups)) = ups.
Proof.
  intros [Ho Hu]%inner_events_quiet.
  destruct (uploads_of_upload_events ups) as [Hu' Ho'].
  change (NewFileSystem o :: ?l) with ([NewFileSystem o] ++ l).
  rewrite !fs_options_app, !uploads_app, Ho, Hu, Ho', Hu'. done.
Qed.

(** The high-RAM function gives each network operation a timeout of its
    own: 300 seconds for the requests of the source file system and 7200
    seconds for the upload.  The streaming function passes neither: what
    bounds its operations is left to the client libraries.  No run has a
    timeout as a whole (the functions start no timer at all). *)
Theorem timeouts_are_passed_by_high_ram_only :
  (requests_timeout <$> fs_options (trace (combine_and_upload_high_ram cfg w))
     = [Some 300%Z]
   ∧ Forall (λ u, up_timeout u = Some 7200%Z)
       (uploads (trace (combine_and_upload_high_ram cfg w))))
  ∧
  (requests_timeout <$> fs_options (trace (combine_and_upload_streaming_chunked cfg w))
     = [None]
   ∧ Forall (λ u, up_timeout u = None)
       (uploads (trace (combine_and_upload_streaming_chunked cfg w)))).
Proof.
  split.
  - destruct high_ram_shape as (inner & ups & -> & Hinner & Hups).
    destruct (shape_options_uploads high_ram_fs_options inner ups Hinner) as [-> ->].
    split; [done|]. destruct Hups as [->|[buf ->]]; by repeat constructor.
  - destruct streaming_shape as (inner & ups & -> & Hinner & Hups).
    destruct (shape_options_uploads streaming_fs_options inner ups Hinner) as [-> ->].
    split; [done|]. destruct Hups as [->|[buf ->]]; by repeat constructor.
Qed.

End Shape.

(** C8, at a failing input.  A streaming run on the [abc] bucket succeeds
    with a file system that was given no [requests_timeout] and an upload
    that was given no [timeout], where the high-RAM function passes 300 and
    7200 seconds. *)
Lemma streaming_passes_no_timeout :
  let run := combine_and_upload_streaming_chunked example_config (abc_world [0; 1; 2]) in
  result run = Ok tt
  ∧ requests_timeout <$> fs_options (trace run) = [None]
  ∧ up_timeout <$> uploads (trace run) = [None].
Proof. by vm_compute. Qed.

(** ** What is uploaded *)

Section Output.
Context `{Platform}.
Variable cfg : Config.
Variable w : World.

Lemma futures_succeed (csv_files : list str) (bodies : list bytes) (n k : nat) :
  Forall2 (λ p b, ∀ i, download_entire_file w p i n = Ok (i, b)) csv_files bodies →
  imap (λ i p, download_entire_file w p (k + i) n) csv_files
  = imap (λ i b, Ok (k + i, b)) bodies.
Proof.
  intros Hall. revert k. induction Hall as [|p b ps bs Hp _ IH]; intros k.
  { done. }
  simpl. f_equal.
  - apply Hp.
  - rewrite <- (imap_ext (λ i p, download_entire_file w p (S k + i) n))
      by (intros; simpl; f_equal; lia).
    rewrite IH. apply imap_ext. intros; simpl. do 2 f_equal. lia.
Qed.

(** The run of phases 1 to 3 when the pool can be created, every download
    succeeds and [as_completed] yields every future: whatever the completion
    order, the bodies are compressed in listing order. *)
Lemma download_compress_upload_success (csv_files : list str) (bodies : list bytes) :
  (0 < MAX_WORKERS cfg)%Z →
  as_completed w ≡ₚ seq 0 (length csv_files) →
  Forall2 (λ p b, ∀ i, download_entire_file w p i (length csv_files) = Ok (i, b))
    csv_files bodies →
  let u := high_ram_upload cfg (bz2_compress 9 (concat bodies)) in
  download_compress_upload cfg w csv_files
  = (NewExecutor (MAX_WORKERS cfg) :: imap Submitted csv_files ++ [UploadFromFile u],
     upload_from_file w u).
Proof.
  intros Hw Hperm Hall u.
  rewrite download_compress_upload_run, download_all_run, decide_False by lia.
  cbv zeta.
  rewrite (imap_ext _ (λ i p, download_entire_file w p (0 + i) (length csv_files)))
    by done.
  rewrite (futures_succeed csv_files bodies _ 0 Hall).
  destruct (collect_ok bodies (as_completed w) ∅) as (d & Hd & Hlookup).
  rewrite (imap_ext _ (λ i b, Ok (i, b))) by done. rewrite Hd.
  rewrite trace_pair, result_pair, app_nil_r.
  assert (∀ k, d !! k = bodies !! k) as Hsame.
  { intros k. rewrite Hlookup, lookup_empty.
    destruct (decide (k ∈ as_completed w)) as [Hin|Hout].
    - by destruct (bodies !! k).
    - symmetry. apply lookup_ge_None.
      rewrite Hperm, elem_of_seq in Hout.
      apply Forall2_length in Hall. lia. }
  rewrite (Forall2_length _ _ _ Hall), compress_and_upload_run.
  cbv zeta. rewrite (present_all bodies d Hsame), (missing_none bodies d Hsame).
  by rewrite trace_pair, result_pair.
Qed.

(** The streaming run when the pool can be created and every read succeeds:
    the bodies are compressed in the order [as_completed] yields them. *)
Lemma streaming_success (found : list str) (bodies : list bytes) :
  fs_find w (prefix_path cfg) = Ok found →
  (0 < MAX_WORKERS cfg)%Z →
  Forall2 (λ p b, fs_read w p = Ok b) (csv_files_of found) bodies →
  let arrived := omap (λ j, bodies !! j) (as_completed w) in
  let u := streaming_upload cfg (bz2_compress 9 (concat arrived)) in
  combine_and_upload_streaming_chunked cfg w
  = ([NewFileSystem streaming_fs_options; FsFind (prefix_path cfg);
      NewExecutor (MAX_WORKERS cfg)]
       ++ imap Submitted (csv_files_of found) ++ [UploadFromFile u],
     upload_from_file w u).
Proof.
  intros Hfind Hw Hall arrived u.
  rewrite streaming_run. cbv zeta. rewrite Hfind, process_all_run, decide_False by lia.
  cbv zeta.
  assert (process_file_fast w <$> csv_files_of found = Ok <$> bodies) as ->.
  { clear -Hall. induction Hall as [|p b ps bs Hb _ IH]; [done|].
    rewrite !fmap_cons, IH. unfold process_file_fast. by rewrite Hb. }
  rewrite gather_ok, trace_pair, result_pair, app_nil_r.
  by rewrite upload_streaming_run, trace_pair, result_pair.
Qed.

(** The listing both functions work on is sorted by path, holds exactly the
    found paths that end in [.csv], and is the only sorted arrangement of
    them: it does not depend on the order in which [fs.find] lists. *)
Theorem csv_files_sorted (found : list str) :
  StronglySorted str_le (csv_files_of found)
  ∧ csv_files_of found ≡ₚ List.filter (λ f, endswith f (lit ".csv")) found
  ∧ (∀ p, p ∈ csv_files_of found ↔ p ∈ found ∧ lit ".csv" `suffix_of` p)
  ∧ (∀ found', found' ≡ₚ found → csv_files_of found' = csv_files_of found).
Proof.
  unfold csv_files_of, sort. split; [apply (StronglySorted_merge_sort str_le)|].
  split; [apply (merge_sort_Permutation str_le)|]. split.
  - intros p. rewrite (merge_sort_Permutation str_le), !list_elem_of_In, filter_In.
    by rewrite endswith_suffix.
  - intros found' Hperm. apply sort_unique.
    + rewrite (merge_sort_Permutation str_le).
      clear -Hperm. induction Hperm as [|x l l' _ IH|x y l|l l' l'' _ IH1 _ IH2].
      * done.
      * simpl. destruct (endswith x _); by rewrite IH.
      * simpl. destruct (endswith x _), (endswith y _); try done. apply Permutation_swap.
      * by rewrite IH1.
    + apply (StronglySorted_merge_sort str_le).
Qed.

(** The high-RAM function, once past the gate, when every download returns
    (its size lookup, its read and, if the read took time, the throughput
    division of line 55 all succeed): whatever order the downloads complete
    in, it uploads once, the level-9 compression of the bodies concatenated
    in sorted-path order with nothing between them, to
    [DEST_BUCKET/DEST_FILENAME] as [application/x-bzip2]. *)
Theorem high_ram_output_in_sorted_order (found : list str) (bodies : list bytes) :
  fs_find w (prefix_path cfg) = Ok found →
  let csv_files := csv_files_of found in
  csv_files ≠ [] →
  result (estimate cfg w csv_files) = Ok Proceed →
  (0 < MAX_WORKERS cfg)%Z →
  as_completed w ≡ₚ seq 0 (length csv_files) →
  Forall2 (λ p b, ∀ i, download_entire_file w p i (length csv_files) = Ok (i, b))
    csv_files bodies →
  let u := high_ram_upload cfg (bz2_compress 9 (concat bodies)) in
  uploads (trace (combine_and_upload_high_ram cfg w)) = [u]
  ∧ result (combine_and_upload_high_ram cfg w) = upload_from_file w u.
Proof.
  intros Hfind csv_files Hne Hgate Hw Hperm Hall u.
  destruct (estimate_total cfg w csv_files) as (tr & g & Hest & Hev).
  rewrite Hest, result_pair in Hgate. injection Hgate as ->.
  apply estimator_events_no_upload in Hev as [Hup _].
  rewrite high_ram_run. cbv zeta. rewrite Hfind. fold csv_files.
  rewrite decide_False, Hest by done.
  rewrite (download_compress_upload_success csv_files bodies Hw Hperm Hall).
  fold u. rewrite !trace_pair, !result_pair. split; [|done].
  change (NewExecutor ?x :: ?l) with ([NewExecutor x] ++ l).
  by rewrite !uploads_app, Hup, uploads_submitted.
Qed.

(** The streaming function uploads the compression of the bodies in the
    order the reads complete, which is the sorted-path order only when they
    complete in listing order. *)
Theorem streaming_output_in_completion_order (found : list str) (bodies : list bytes) :
  fs_find w (prefix_path cfg) = Ok found →
  (0 < MAX_WORKERS cfg)%Z →
  Forall2 (λ p b, fs_read w p = Ok b) (csv_files_of found) bodies →
  let arrived := omap (λ j, bodies !! j) (as_completed w) in
  uploads (trace (combine_and_upload_streaming_chunked cfg w))
    = [streaming_upload cfg (bz2_compress 9 (concat arrived))]
  ∧ (as_completed w = seq 0 (length (csv_files_of found)) → arrived = bodies).
Proof.
  intros Hfind Hw Hall arrived. split.
  - rewrite (streaming_success found bodies Hfind Hw Hall), trace_pair.
    by rewrite !uploads_app, uploads_submitted.
  - intros Horder. unfold arrived.
    rewrite Horder, (Forall2_length _ _ _ Hall). apply omap_lookup_seq.
Qed.

(** When the downloads complete in listing order, the high-RAM function
    passes its gate and every one of its downloads returns (size lookup,
    read and throughput division included), the two functions upload the
    same bytes. *)
Theorem variants_agree_in_listing_order (found : list str) (bodies : list bytes) :
  fs_find w (prefix_path cfg) = Ok found →
  let csv_files := csv_files_of found in
  csv_files ≠ [] →
  result (estimate cfg w csv_files) = Ok Proceed →
  (0 < MAX_WORKERS cfg)%Z →
  as_completed w = seq 0 (length csv_files) →
  Forall2 (λ p b, ∀ i, download_entire_file w p i (length csv_files) = Ok (i, b))
    csv_files bodies →
  up_data <$> uploads (trace (combine_and_upload_high_ram cfg w))
  = up_data <$> uploads (trace (combine_and_upload_streaming_chunked cfg w)).
Proof.
  intros Hfind csv_files Hne Hgate Hw Horder Hall.
  assert (Forall2 (λ p b, fs_read w p = Ok b) csv_files bodies) as Hreads.
  { eapply Forall2_impl; [exact Hall|]. intros p b Hp.
    by destruct (download_entire_file_ok_inv w p 0 _ 0 b (Hp 0)) as (_ & ? & _). }
  destruct (estimate_total cfg w csv_files) as (tr & g & Hest & Hev).
  rewrite Hest, result_pair in Hgate. injection Hgate as ->.
  apply estimator_events_no_upload in Hev as [Hup _].
  rewrite (streaming_success found bodies Hfind Hw Hreads).
  rewrite high_ram_run. cbv zeta. rewrite Hfind. fold csv_files.
  rewrite decide_False, Hest by done.
  rewrite (download_compress_upload_success csv_files bodies Hw) by (by rewrite ?Horder).
  rewrite !trace_pair.
  change (NewExecutor ?x :: ?l) with ([NewExecutor x] ++ l).
  rewrite !uploads_app, Hup, !uploads_submitted. simpl.
  by rewrite Horder, (Forall2_length _ _ _ Hall), omap_lookup_seq.
Qed.

(** With no [.csv] object under the prefix the high-RAM function prints that
    it found none and returns: no estimate, no download, no upload. *)
Theorem high_ram_empty_listing_is_noop (found : list str) :
  fs_find w (prefix_path cfg) = Ok found →
  csv_files_of found = [] →
  combine_and_upload_high_ram cfg w
  = ([NewFileSystem high_ram_fs_options; FsFind (prefix_path cfg);
      Printed NoCsvFilesFound], Ok tt).
Proof.
  intros Hfind Hempty. rewrite high_ram_run. cbv zeta.
  by rewrite Hfind, decide_True.
Qed.

(** Either function uploads at most once per run, and only to
    [DEST_BUCKET/DEST_FILENAME], rewound, as [application/x-bzip2]. *)
Theorem at_most_one_upload :
  let to_destination (u : UploadCall) :=
    up_bucket u = DEST_BUCKET cfg ∧ up_blob u = DEST_FILENAME cfg
    ∧ up_rewind u = true ∧ up_content_type u = lit "application/x-bzip2" in
  (length (uploads (trace (combine_and_upload_high_ram cfg w))) ≤ 1
   ∧ Forall to_destination (uploads (trace (combine_and_upload_high_ram cfg w))))
  ∧ (length (uploads (trace (combine_and_upload_streaming_chunked cfg w))) ≤ 1
     ∧ Forall to_destination
         (uploads (trace (combine_and_upload_streaming_chunked cfg w)))).
Proof.
  intros to_destination. split.
  - destruct (high_ram_shape cfg w) as (inner & ups & -> & Hinner & Hups).
    destruct (shape_options_uploads high_ram_fs_options inner ups Hinner) as [_ ->].
    destruct Hups as [->|[buf ->]]; simpl; split; try lia; by repeat constructor.
  - destruct (streaming_shape cfg w) as (inner & ups & -> & Hinner & Hups).
    destruct (shape_options_uploads streaming_fs_options inner ups Hinner) as [_ ->].
    destruct Hups as [->|[buf ->]]; simpl; split; try lia; by repeat constructor.
Qed.

(** When the projection exceeds the budget and [input] raises instead of
    returning an answer (end of input on a closed terminal), the handler
    around the estimate catches it: the run warns that it could not estimate
    and proceeds without a confirmation. *)
Theorem prompt_error_proceeds (csv_files : list str) (sizes : list Z) (avg : float)
    (e : exn) :
  let sample_files := take (10 `min` length csv_files) csv_files in
  Forall2 (λ f s, fs_size w Estimating f = Ok s) sample_files sizes →
  int_truediv (total sizes) (Z.of_nat (length sample_files)) = Ok avg →
  float_gt_int
    (float_div_int (float_mul_int avg (Z.of_nat (length csv_files))) (1024 ^ 3))
    (MEMORY_LIMIT_GB cfg) = true →
  input w = Raise e →
  estimate cfg w csv_files
  = ((FsSize <$> sample_files)
       ++ [Printed ExceedsMemoryLimit; InputPrompt; Printed (CouldNotEstimateSize e)],
     Ok Proceed).
Proof.
  intros sample_files Hsizes Havg Hgt Hinput.
  rewrite (estimate_sampled cfg w csv_files sizes avg Hsizes Havg).
  cbv zeta. rewrite Hgt, Hinput. fold sample_files. by rewrite <- app_assoc.
Qed.

End Output.

(** ** The worker pool *)

Lemma no_pool_events (tr : list event) :
  Forall no_pool_event tr → executors tr = [] ∧ submitted tr = [].
Proof. induction 1 as [|ev tr Hev _ [IH1 IH2]]; [done|]. by destruct ev. Qed.

Lemma no_executor_events (tr : list event) :
  Forall no_executor_event tr → executors tr = [].
Proof. induction 1 as [|ev tr Hev _ IH]; [done|]. by destruct ev. Qed.

Lemma executors_app tr1 tr2 : executors (tr1 ++ tr2) = executors tr1 ++ executors tr2.
Proof. apply omap_app. Qed.

Lemma estimator_events_no_pool (tr : list event) :
  Forall estimator_event tr → Forall no_pool_event tr.
Proof. intros Htr. eapply Forall_impl; [exact Htr|]. by intros []. Qed.

Lemma no_executor_printed (ms : list message) :
  Forall no_executor_event (Printed <$> ms).
Proof. apply Forall_fmap, Forall_true. done. Qed.

Lemma no_executor_submitted (files : list str) :
  Forall no_executor_event (imap Submitted files).
Proof.
  apply Forall_forall. intros ev (i & p & -> & _)%elem_of_lookup_imap. done.
Qed.

Section Pool.
Context `{Platform}.
Variable cfg : Config.
Variable w : World.

Lemma no_pool_intro (tr : list event) :
  Forall no_pool_event tr → uses_one_pool cfg tr.
Proof. intros Htr. left. by apply no_pool_events. Qed.

Lemma one_pool_intro (before after : list event) :
  Forall no_pool_event before →
  Forall no_executor_event after →
  ((MAX_WORKERS cfg ≤ 0)%Z → after = []) →
  uses_one_pool cfg (before ++ NewExecutor (MAX_WORKERS cfg) :: after).
Proof.
  intros [Hex Hsub]%no_pool_events Hafter%no_executor_events Hfail. right.
  change (NewExecutor ?n :: after) with ([NewExecutor n] ++ after).
  rewrite !executors_app, !submitted_app, Hex, Hsub, Hafter. split; [done|].
  intros Hle. by rewrite (Hfail Hle).
Qed.

(** Both functions hand their retrievals to one [ThreadPoolExecutor],
    created with [max_workers = MAX_WORKERS]: a run creates at most one
    pool, submits nothing without one, and submits nothing when
    [MAX_WORKERS] is not positive (the creation raises).  The number of
    retrievals running at once is then bounded by the pool. *)
Theorem retrievals_go_through_one_pool :
  uses_one_pool cfg (trace (combine_and_upload_high_ram cfg w))
  ∧ uses_one_pool cfg (trace (combine_and_upload_streaming_chunked cfg w)).
Proof.
  split.
  - rewrite high_ram_run. cbv zeta.
    destruct (fs_find w (prefix_path cfg)) as [found|e].
    2:{ apply no_pool_intro. by repeat constructor. }
    destruct (decide (csv_files_of found = [])).
    { apply no_pool_intro. by repeat constructor. }
    destruct (estimate_total cfg w (csv_files_of found)) as (tr & g & -> & Hev).
    apply estimator_events_no_pool in Hev. destruct g; rewrite trace_pair.
    2:{ apply no_pool_intro. by repeat constructor. }
    rewrite download_compress_upload_run, download_all_run.
    destruct (decide (MAX_WORKERS cfg ≤ 0)%Z) as [Hle|Hgt].
    { rewrite trace_pair, app_assoc. apply one_pool_intro; [|done..].
      apply Forall_app. split; [by repeat constructor|done]. }
    cbv zeta.
    set (futures := imap (λ i p, download_entire_file w p i _) (csv_files_of found)).
    destruct (collect_events futures (as_completed w) ∅) as [ms Hms].
    rewrite Hms. destruct (result _) as [d|e]; rewrite trace_pair, app_assoc.
    + rewrite compress_and_upload_run. cbv zeta. rewrite trace_pair.
      apply one_pool_intro; [|
        |done].
      * apply Forall_app. split; [by repeat constructor|done].
      * rewrite list_fmap_compose.
        repeat (apply Forall_app; split);
          auto using no_executor_submitted, no_executor_printed.
        by repeat constructor.
    + apply one_pool_intro; [| |done].
      * apply Forall_app. split; [by repeat constructor|done].
      * apply Forall_app. split;
          auto using no_executor_submitted, no_executor_printed.
  - rewrite streaming_run. cbv zeta.
    destruct (fs_find w (prefix_path cfg)) as [found|e].
    2:{ apply no_pool_intro. by repeat constructor. }
    rewrite process_all_run.
    destruct (decide (MAX_WORKERS cfg ≤ 0)%Z) as [Hle|Hgt].
    { apply (one_pool_intro [_; _] []); [by repeat constructor|done..]. }
    cbv zeta. rewrite gather_events, app_nil_r.
    destruct (result _) as [all_data|e]; rewrite trace_pair.
    + rewrite upload_streaming_run, trace_pair.
      apply (one_pool_intro [_; _]); [by repeat constructor| |done].
      apply Forall_app. split; [apply no_executor_submitted|by repeat constructor].
    + apply (one_pool_intro [_; _]); [by repeat constructor| |done].
      apply no_executor_submitted.
Qed.

End Pool.

(** ** Where the streaming function departs from the high-RAM one *)

(** On the [abc] bucket the estimate never stops a run: the terminal is at
    end of input, so even a projection above the budget ends in the handler. *)
Lemma abc_gate_open `{Platform} (order : list nat) :
  ∃ tr, estimate example_config (abc_world order) [a_csv; b_csv; c_csv] = (tr, Ok Proceed)
        ∧ uploads tr = [].
Proof.
  destruct (estimate_total example_config (abc_world order) [a_csv; b_csv; c_csv])
    as (tr & g & Hest & Hev).
  apply estimator_events_no_upload in Hev as [Hup _].
  exists tr. split; [|done]. rewrite Hest. do 2 f_equal.
  revert Hest. unfold estimate.
  destruct (sum_sizes _ _ _) as [tr1 [sample_size|e]]; simpl; [|by intros [= _ <-]].
  destruct (int_truediv _ _) as [avg|e]; simpl; [|by intros [= _ <-]].
  destruct (float_gt_int _ _); simpl; by intros [= _ <-].
Qed.

(** What the high-RAM function uploads from the [abc] bucket, for every
    completion order that yields the three futures. *)
Lemma abc_high_ram_upload `{Platform} (order : list nat) :
  order ≡ₚ [0; 1; 2] →
  uploads (trace (combine_and_upload_high_ram example_config (abc_world order)))
  = [high_ram_upload example_config
       (bz2_compress 9 (line "1,2" ++ line "3,4" ++ line "5,6"))].
Proof.
  intros Hperm. destruct (abc_gate_open order) as (tr & Hest & Hup).
  rewrite high_ram_run. cbv zeta.
  change (fs_find (abc_world order) (prefix_path example_config)) with (Ok abc.*1).
  cbv beta iota. change (csv_files_of abc.*1) with [a_csv; b_csv; c_csv].
  rewrite decide_False, Hest by done.
  rewrite (download_compress_upload_success example_config (abc_world order)
             [a_csv; b_csv; c_csv] [line "1,2"; line "3,4"; line "5,6"]).
  - rewrite !trace_pair.
    change (NewExecutor ?x :: ?l) with ([NewExecutor x] ++ l).
    by rewrite !uploads_app, Hup, uploads_submitted.
  - done.
  - done.
  - repeat constructor; by eexists.
Qed.

(** C1, at a failing input.  The bucket holds [a.csv], [b.csv], [c.csv]
    and the read of [b.csv] completes first.  The streaming function
    uploads a stream that decompresses to the body of [b.csv], then
    [a.csv], then [c.csv]: the completion order, not the sorted-path order
    in which the three were submitted. *)
Theorem streaming_output_follows_completion `{Platform} :
  let run := combine_and_upload_streaming_chunked example_config (abc_world [1; 0; 2]) in
  result run = Ok tt
  ∧ submitted (trace run) = [(0, a_csv); (1, b_csv); (2, c_csv)]
  ∧ bz2_decompress ∘ up_data <$> uploads (trace run)
    = [line "3,4" ++ line "1,2" ++ line "5,6"].
Proof.
  cbv zeta.
  rewrite (streaming_success example_config (abc_world [1; 0; 2]) abc.*1
             [line "1,2"; line "3,4"; line "5,6"] eq_refl);
    [|done|by repeat constructor].
  rewrite trace_pair, result_pair. split; [done|]. split; [done|].
  rewrite !uploads_app, uploads_submitted. simpl. by rewrite bz2_lossless.
Qed.

(** C2, at a failing input.  Same bucket, same completion order: the
    high-RAM function uploads the compression of [a.csv], [b.csv], [c.csv]
    and the streaming function that of [b.csv], [a.csv], [c.csv].  The two
    uploads differ, for every lossless compressor. *)
Theorem variants_differ_out_of_order `{Platform} :
  let w := abc_world [1; 0; 2] in
  let high := up_data <$> uploads (trace (combine_and_upload_high_ram example_config w)) in
  let streaming :=
    up_data <$> uploads (trace (combine_and_upload_streaming_chunked example_config w)) in
  high = [bz2_compress 9 (line "1,2" ++ line "3,4" ++ line "5,6")]
  ∧ streaming = [bz2_compress 9 (line "3,4" ++ line "1,2" ++ line "5,6")]
  ∧ high ≠ streaming.
Proof.
  cbv zeta.
  rewrite (abc_high_ram_upload [1; 0; 2]) by (by apply (Permutation_swap 0 1 [2])).
  rewrite (streaming_success example_config (abc_world [1; 0; 2]) abc.*1
             [line "1,2"; line "3,4"; line "5,6"] eq_refl);
    [|done|by repeat constructor].
  rewrite trace_pair, !uploads_app, uploads_submitted.
  split; [done|]. split; [done|].
  intros [= Heq]. apply (f_equal bz2_decompress) in Heq.
  rewrite !bz2_lossless in Heq. discriminate Heq.
Qed.

(** C5, at a failing input.  The prefix holds no [.csv] object.  The
    streaming function has no guard for the empty listing: it creates the
    pool, compresses nothing and uploads the compression of the empty
    stream to the destination. *)
Theorem streaming_uploads_on_empty_listing `{Platform} :
  combine_and_upload_streaming_chunked example_config empty_world
  = ([NewFileSystem streaming_fs_options; FsFind (lit "src/"); NewExecutor 32;
      UploadFromFile (streaming_upload example_config (bz2_compress 9 []))],
     Ok tt).
Proof.
  by rewrite (streaming_success example_config empty_world [lit "src/notes.txt"] []
                eq_refl).
Qed.

(** C7, at a failing input.  The read of [c.csv] completes first, then
    [a.csv], then [b.csv].  The streaming run succeeds and writes one object
    to [DEST_BUCKET/DEST_FILENAME] as [application/x-bzip2], compressed at
    level 9 and without separators, but its body is [c.csv], [a.csv],
    [b.csv]: not the sorted-path order. *)
Theorem streaming_upload_not_in_path_order `{Platform} :
  let run := combine_and_upload_streaming_chunked example_config (abc_world [2; 0; 1]) in
  result run = Ok tt
  ∧ uploads (trace run)
    = [streaming_upload example_config
         (bz2_compress 9 (line "5,6" ++ line "1,2" ++ line "3,4"))].
Proof.
  cbv zeta.
  rewrite (streaming_success example_config (abc_world [2; 0; 1]) abc.*1
             [line "1,2"; line "3,4"; line "5,6"] eq_refl);
    [|done|by repeat constructor].
  rewrite trace_pair, result_pair. split; [done|].
  by rewrite !uploads_app, uploads_submitted.
Qed.

(** ** The general statements at the example buckets *)

(** [c.csv] completes first, then [a.csv], then [b.csv], each read taking
    time: the high-RAM function still uploads [a.csv], [b.csv], [c.csv]. *)
Lemma high_ram_output_in_sorted_order_witness :
  let run := combine_and_upload_high_ram example_config (timed (abc_world [2; 0; 1])) in
  uploads (trace run)
    = [high_ram_upload example_config
         (bz2_compress 9 (line "1,2" ++ line "3,4" ++ line "5,6"))]
  ∧ result run = Ok tt.
Proof.
  apply (@high_ram_output_in_sorted_order reference_platform example_config
           (timed (abc_world [2; 0; 1])) abc.*1
           [line "1,2"; line "3,4"; line "5,6"] eq_refl).
  - by vm_compute.
  - by vm_compute.
  - done.
  - apply (bool_decide_unpack _). by vm_compute.
  - repeat constructor; intros i; by vm_compute.
Defined.

(** The same completion order under the streaming function. *)
Lemma streaming_output_in_completion_order_witness :
  uploads (trace (combine_and_upload_streaming_chunked example_config
                    (abc_world [2; 0; 1])))
  = [streaming_upload example_config
       (bz2_compress 9 (line "5,6" ++ line "1,2" ++ line "3,4"))].
Proof.
  destruct (@streaming_output_in_completion_order reference_platform example_config
              (abc_world [2; 0; 1]) abc.*1 [line "1,2"; line "3,4"; line "5,6"] eq_refl)
    as [Hup _]; [done|vm_compute; by repeat constructor|].
  exact Hup.
Defined.

(** Completion in listing order, each read taking time: both functions
    upload the same bytes. *)
Lemma variants_agree_in_listing_order_witness :
  up_data <$> uploads (trace (combine_and_upload_high_ram example_config
                                (timed (abc_world [0; 1; 2]))))
  = up_data <$> uploads (trace (combine_and_upload_streaming_chunked example_config
                                  (timed (abc_world [0; 1; 2])))).
Proof.
  apply (@variants_agree_in_listing_order reference_platform example_config
           (timed (abc_world [0; 1; 2])) abc.*1
           [line "1,2"; line "3,4"; line "5,6"] eq_refl).
  - by vm_compute.
  - by vm_compute.
  - done.
  - by vm_compute.
  - repeat constructor; intros i; by vm_compute.
Defined.

(** The bucket without CSV objects. *)
Lemma high_ram_empty_listing_is_noop_witness :
  combine_and_upload_high_ram example_config empty_world
  = ([NewFileSystem high_ram_fs_options; FsFind (lit "src/"); Printed NoCsvFilesFound],
     Ok tt).
Proof.
  apply (@high_ram_empty_listing_is_noop reference_platform example_config empty_world
           [lit "src/notes.txt"] eq_refl).
  by vm_compute.
Defined.

(** The 40 GiB bucket with the terminal at end of input. *)
Lemma prompt_error_proceeds_witness :
  estimate example_config (big_world (Raise EOFError)) [a_csv; b_csv; c_csv]
  = ([FsSize a_csv; FsSize b_csv; FsSize c_csv; Printed ExceedsMemoryLimit;
      InputPrompt; Printed (CouldNotEstimateSize EOFError)],
     Ok Proceed).
Proof.
  apply (@prompt_error_proceeds reference_platform example_config
           (big_world (Raise EOFError)) [a_csv; b_csv; c_csv]
           [40 * 1024 ^ 3; 40 * 1024 ^ 3; 40 * 1024 ^ 3]%Z
           (S754_finite false 5629499534213120 (-17)) EOFError).
  - vm_compute. by repeat constructor.
  - by vm_compute.
  - by vm_compute.
  - done.
Defined.

(** * Further properties of the two functions *)

(** ** Every run, case by case *)

Lemma omap_imap_None {A B C} (f : nat → A → B) (sel : B → option C) (l : list A) :
  (∀ i x, sel (f i x) = None) → omap sel (imap f l) = [].
Proof.
  intros Hsel. revert f Hsel. induction l as [|x l IH]; intros f Hsel; [done|].
  csimpl. rewrite Hsel. apply IH. intros i y. apply Hsel.
Qed.

Lemma omap_fmap_None {A B C} (f : A → B) (sel : B → option C) (l : list A) :
  (∀ x, sel (f x) = None) → omap sel (f <$> l) = [].
Proof.
  intros Hsel. induction l as [|x l IH]; [done|]. csimpl. by rewrite Hsel.
Qed.

Lemma collect_raise_inv (futures : list (res (nat * bytes))) (order : list nat)
    (d : gmap nat bytes) (tr : list event) (e : exn) :
  collect futures order d = (tr, Raise e) →
  tr = [Printed (DownloadFailed e)]
  ∧ ∃ before i after,
      order = before ++ i :: after
      ∧ futures !! i = Some (Raise e)
      ∧ ∀ j, j ∈ before → futures !! j ≠ Some (Raise e).
Proof.
  revert d. induction order as [|j order IH]; intros d; [done|].
  simpl. destruct (futures !! j) as [[[k b]|e1]|] eqn:Hj.
  - intros (-> & before & i & after & -> & Hi & Hbefore)%IH. split; [done|].
    exists (j :: before), i, after. split; [done|]. split; [done|].
    intros j' [->|?]%elem_of_cons; [congruence|by apply Hbefore].
  - intros [= <- <-]. split; [done|]. exists [], j, order.
    split; [done|]. split; [done|]. by intros j' ?%elem_of_nil.
  - intros (-> & before & i & after & -> & Hi & Hbefore)%IH. split; [done|].
    exists (j :: before), i, after. split; [done|]. split; [done|].
    intros j' [->|?]%elem_of_cons; [congruence|by apply Hbefore].
Qed.

Lemma collect_ok_quiet (futures : list (res (nat * bytes))) (order : list nat)
    (d d' : gmap nat bytes) (tr : list event) :
  collect futures order d = (tr, Ok d') → tr = [].
Proof.
  revert d. induction order as [|j order IH]; intros d; [by intros [= <- _]|].
  simpl. destruct (futures !! j) as [[[k b]|e1]|]; [apply IH|done|apply IH].
Qed.

Lemma gather_raise_inv (futures : list (res bytes)) (order : list nat)
    (all_data : list bytes) (tr : list event) (e : exn) :
  gather futures order all_data = (tr, Raise e) →
  ∃ before i after,
    order = before ++ i :: after
    ∧ futures !! i = Some (Raise e)
    ∧ ∀ j, j ∈ before → futures !! j ≠ Some (Raise e).
Proof.
  revert all_data. induction order as [|j order IH]; intros all_data; [done|].
  simpl. destruct (futures !! j) as [[b|e1]|] eqn:Hj.
  - intros (before & i & after & -> & Hi & Hbefore)%IH.
    exists (j :: before), i, after. split; [done|]. split; [done|].
    intros j' [->|?]%elem_of_cons; [congruence|by apply Hbefore].
  - intros [= _ <-]. exists [], j, order.
    split; [done|]. split; [done|]. by intros j' ?%elem_of_nil.
  - intros (before & i & after & -> & Hi & Hbefore)%IH.
    exists (j :: before), i, after. split; [done|]. split; [done|].
    intros j' [->|?]%elem_of_cons; [congruence|by apply Hbefore].
Qed.

Section Cases.
Context `{Platform}.
Variable cfg : Config.
Variable w : World.

(** The six ways a high-RAM run can go, each with its trace and result. *)
Lemma high_ram_cases :
  let run := combine_and_upload_high_ram cfg w in
  let opened := [NewFileSystem high_ram_fs_options; FsFind (prefix_path cfg)] in
  (∃ e, fs_find w (prefix_path cfg) = Raise e ∧ run = (opened, Raise e))
  ∨ ∃ found,
      fs_find w (prefix_path cfg) = Ok found
      ∧ let csv_files := csv_files_of found in
        let futures :=
          imap (λ i p, download_entire_file w p i (length csv_files)) csv_files in
        (csv_files = [] ∧ run = (opened ++ [Printed NoCsvFilesFound], Ok tt))
        ∨ ∃ tr g,
            csv_files ≠ []
            ∧ estimate cfg w csv_files = (tr, Ok g)
            ∧ Forall estimator_event tr
            ∧ ((g = ReturnEarly ∧ run = (opened ++ tr, Ok tt))
               ∨ (g = Proceed ∧ (MAX_WORKERS cfg ≤ 0)%Z
                  ∧ run = (opened ++ tr ++ [NewExecutor (MAX_WORKERS cfg)],
                           Raise ValueError))
               ∨ (g = Proceed ∧ (0 < MAX_WORKERS cfg)%Z
                  ∧ ∃ e,
                      collect futures (as_completed w) ∅
                        = ([Printed (DownloadFailed e)], Raise e)
                      ∧ run = (opened ++ tr ++ [NewExecutor (MAX_WORKERS cfg)]
                                 ++ imap Submitted csv_files
                                 ++ [Printed (DownloadFailed e)],
                               Raise e))
               ∨ (g = Proceed ∧ (0 < MAX_WORKERS cfg)%Z
                  ∧ ∃ d,
                      collect futures (as_completed w) ∅ = ([], Ok d)
                      ∧ let n := length csv_files in
                        let u := high_ram_upload cfg
                                   (bz2_compress 9 (concat (present n d))) in
                        run = (opened ++ tr ++ [NewExecutor (MAX_WORKERS cfg)]
                                 ++ imap Submitted csv_files
                                 ++ (Printed ∘ MissingData <$> missing n d)
                                 ++ [UploadFromFile u],
                               upload_from_file w u))).
Proof.
  cbv zeta. rewrite high_ram_run. cbv zeta.
  destruct (fs_find w (prefix_path cfg)) as [found|e]; [right|left; by exists e].
  exists found. split; [done|].
  destruct (decide (csv_files_of found = [])) as [Hempty|Hne]; [by left|right].
  destruct (estimate_total cfg w (csv_files_of found)) as (tr & g & Hest & Hev).
  exists tr, g. rewrite Hest. do 3 (split; [done|]).
  destruct g; [right|by left].
  rewrite download_compress_upload_run, download_all_run.
  destruct (decide (MAX_WORKERS cfg ≤ 0)%Z) as [Hle|Hgt]; [by left|right].
  cbv zeta.
  destruct (collect _ (as_completed w) ∅) as [trc [d|e]] eqn:Hc.
  - right. split; [done|]. split; [lia|]. exists d.
    apply collect_ok_quiet in Hc as Htr. subst trc. split; [done|].
    rewrite !trace_pair, !result_pair. cbv beta iota.
    rewrite compress_and_upload_run. cbv zeta.
    rewrite !trace_pair, !result_pair, app_nil_r. simpl.
    by rewrite <- ?app_assoc.
  - left. split; [done|]. split; [lia|]. exists e.
    apply collect_raise_inv in Hc as Htr. destruct Htr as [-> _]. split; [done|].
    rewrite !trace_pair, !result_pair. cbv beta iota.
    by rewrite ?trace_pair, ?result_pair.
Qed.

(** The four ways a streaming run can go. *)
Lemma streaming_cases :
  let run := combine_and_upload_streaming_chunked cfg w in
  let opened := [NewFileSystem streaming_fs_options; FsFind (prefix_path cfg)] in
  (∃ e, fs_find w (prefix_path cfg) = Raise e ∧ run = (opened, Raise e))
  ∨ ∃ found,
      fs_find w (prefix_path cfg) = Ok found
      ∧ let csv_files := csv_files_of found in
        let futures := process_file_fast w <$> csv_files in
        ((MAX_WORKERS cfg ≤ 0)%Z
         ∧ run = (opened ++ [NewExecutor (MAX_WORKERS cfg)], Raise ValueError))
        ∨ ((0 < MAX_WORKERS cfg)%Z
           ∧ ∃ e,
               gather futures (as_completed w) [] = ([], Raise e)
               ∧ run = (opened ++ [NewExecutor (MAX_WORKERS cfg)]
                          ++ imap Submitted csv_files,
                        Raise e))
        ∨ ((0 < MAX_WORKERS cfg)%Z
           ∧ ∃ all_data,
               gather futures (as_completed w) [] = ([], Ok all_data)
               ∧ let u := streaming_upload cfg (bz2_compress 9 (concat all_data)) in
                 run = (opened ++ [NewExecutor (MAX_WORKERS cfg)]
                          ++ imap Submitted csv_files ++ [UploadFromFile u],
                        upload_from_file w u)).
Proof.
  cbv zeta. rewrite streaming_run. cbv zeta.
  destruct (fs_find w (prefix_path cfg)) as [found|e]; [right|left; by exists e].
  exists found. split; [done|]. rewrite process_all_run.
  destruct (decide (MAX_WORKERS cfg ≤ 0)%Z) as [Hle|Hgt]; [by left|right].
  cbv zeta.
  pose proof (gather_events (process_file_fast w <$> csv_files_of found)
                (as_completed w) []) as Hquiet.
  destruct (gather _ (as_completed w) []) as [trg [all_data|e]] eqn:Hg;
    rewrite trace_pair in Hquiet; subst trg.
  - right. split; [lia|]. exists all_data. split; [done|].
    rewrite !trace_pair, !result_pair. cbv beta iota.
    rewrite upload_streaming_run, !trace_pair, !result_pair, app_nil_r. simpl.
    by rewrite <- ?app_assoc.
  - left. split; [lia|]. exists e. split; [done|].
    rewrite !trace_pair, !result_pair. cbv beta iota.
    by rewrite app_nil_r.
Qed.

End Cases.

(** ** What a run does and does not do *)

Lemma omap_estimator_None {C} (sel : event → option C) (tr : list event) :
  (∀ ev, estimator_event ev → sel ev = None) →
  Forall estimator_event tr → omap sel tr = [].
Proof.
  intros Hsel. induction 1 as [|ev tr Hev _ IH]; [done|].
  csimpl. by rewrite (Hsel ev Hev).
Qed.

Lemma last_app_r {A} (l1 l2 : list A) (y : A) :
  last l2 = Some y → last (l1 ++ l2) = Some y.
Proof. intros Hl. by rewrite last_app, Hl. Qed.

Lemma last_cons_r {A} (x : A) (l : list A) (y : A) :
  last l = Some y → last (x :: l) = Some y.
Proof. intros Hl. by rewrite last_cons, Hl. Qed.

(** The last event of a trace that is written out piece by piece. *)
Ltac read_last :=
  repeat first [ apply last_singleton | apply last_app_r | apply last_cons_r ].

(** Reads the selected events off a trace that is written out piece by
    piece, given that the estimator's events [tr] are not selected. *)
Ltac read_trace Hev :=
  rewrite ?trace_pair, ?result_pair;
  unfold uploads, executors, fs_options, find_calls, size_queries, printed, prompts;
  rewrite ?omap_app;
  rewrite ?(omap_imap_None Submitted) by done;
  rewrite ?omap_fmap_None by done;
  lazymatch type of Hev with
  | Forall estimator_event ?tr =>
      rewrite ?(omap_estimator_None _ tr) by (exact Hev || by intros [])
  | _ => idtac
  end;
  csimpl.

Section Further.
Context `{Platform}.
Variable cfg : Config.
Variable w : World.

(** A run that uploads ends with the upload, and the upload's outcome is the
    run's: an upload that raises makes the run raise the same exception,
    with no retry and no clean-up after it; an upload that succeeds is the
    only way for a run that uploads to return normally. *)
Theorem upload_decides_the_outcome (u : UploadCall) :
  (u ∈ uploads (trace (combine_and_upload_high_ram cfg w)) →
   result (combine_and_upload_high_ram cfg w) = upload_from_file w u
   ∧ last (trace (combine_and_upload_high_ram cfg w)) = Some (UploadFromFile u))
  ∧
  (u ∈ uploads (trace (combine_and_upload_streaming_chunked cfg w)) →
   result (combine_and_upload_streaming_chunked cfg w) = upload_from_file w u
   ∧ last (trace (combine_and_upload_streaming_chunked cfg w))
     = Some (UploadFromFile u)).
Proof.
  split.
  - destruct (high_ram_cases cfg w) as [(e & _ & ->)|(found & _ & Hcases)].
    { by intros ?%elem_of_nil. }
    cbv zeta in Hcases.
    destruct Hcases as [[_ ->]|(tr & g & _ & _ & Hev & Hcases)].
    { by intros ?%elem_of_nil. }
    destruct Hcases as [[_ ->]|[(_ & _ & ->)|[(_ & _ & e & _ & ->)|(_ & _ & d & _ & ->)]]];
      read_trace Hev; try by intros ?%elem_of_nil.
    intros ->%list_elem_of_singleton. split; [done|]. read_last.
  - destruct (streaming_cases cfg w) as [(e & _ & ->)|(found & _ & Hcases)].
    { by intros ?%elem_of_nil. }
    cbv zeta in Hcases.
    destruct Hcases as [[_ ->]|[(_ & e & _ & ->)|(_ & all_data & _ & ->)]];
      read_trace I; try by intros ?%elem_of_nil.
    intros ->%list_elem_of_singleton. split; [done|]. read_last.
Qed.

Lemma submitted_pieces (o : FsOptions) (q : str) (tr : list event) (n : Z)
    (files : list str) (after : list event) :
  submitted tr = [] → submitted after = [] →
  submitted ([NewFileSystem o; FsFind q] ++ tr ++ [NewExecutor n]
               ++ imap Submitted files ++ after)
  = imap pair files.
Proof.
  intros Htr Hafter.
  by rewrite !submitted_app, Htr, Hafter, submitted_imap, app_nil_r.
Qed.

(** What the high-RAM function submits: nothing, or the whole listing. *)
Lemma high_ram_submitted :
  submitted (trace (combine_and_upload_high_ram cfg w)) = []
  ∨ ∃ found,
      fs_find w (prefix_path cfg) = Ok found
      ∧ submitted (trace (combine_and_upload_high_ram cfg w))
        = imap pair (csv_files_of found).
Proof.
  destruct (high_ram_cases cfg w) as [(e & _ & ->)|(found & Hfind & Hcases)];
    [by left|].
  cbv zeta in Hcases.
  destruct Hcases as [[_ ->]|(tr & g & _ & _ & Hev & Hcases)]; [by left|].
  apply estimator_events_no_upload in Hev as [_ Hsub].
  destruct Hcases as [[_ ->]|[(_ & _ & ->)|[(_ & _ & e & _ & ->)|(_ & _ & d & _ & ->)]]];
    rewrite trace_pair.
  - left. by rewrite !submitted_app, Hsub.
  - left. by rewrite !submitted_app, Hsub.
  - right. exists found. split; [done|]. by apply submitted_pieces.
  - right. exists found. split; [done|]. apply submitted_pieces; [done|].
    by rewrite submitted_app, list_fmap_compose, submitted_printed.
Qed.

(** What the streaming function submits: nothing, or the whole listing. *)
Lemma streaming_submitted :
  submitted (trace (combine_and_upload_streaming_chunked cfg w)) = []
  ∨ ∃ found,
      fs_find w (prefix_path cfg) = Ok found
      ∧ submitted (trace (combine_and_upload_streaming_chunked cfg w))
        = imap pair (csv_files_of found).
Proof.
  destruct (streaming_cases cfg w) as [(e & _ & ->)|(found & Hfind & Hcases)];
    [by left|].
  cbv zeta in Hcases.
  destruct Hcases as [[_ ->]|[(_ & e & _ & ->)|(_ & all_data & _ & ->)]];
    rewrite trace_pair.
  - by left.
  - right. exists found. split; [done|].
    rewrite <- (app_nil_r (imap Submitted _)), <- (app_nil_l ([NewExecutor _] ++ _)).
    by apply submitted_pieces.
  - right. exists found. split; [done|].
    rewrite <- (app_nil_l ([NewExecutor _] ++ _)). by apply submitted_pieces.
Qed.

Lemma elem_of_csv_files_of (found : list str) (p : str) :
  p ∈ csv_files_of found ↔ p ∈ found ∧ lit ".csv" `suffix_of` p.
Proof.
  unfold csv_files_of, sort.
  rewrite (merge_sort_Permutation str_le), !list_elem_of_In, filter_In.
  by rewrite endswith_suffix.
Qed.

(** A run submits either nothing or the listing as a whole: every found
    path that ends in [.csv], each once, in sorted order, under its position
    in that order.  Nothing else is ever retrieved: no path that was not
    listed and no path with another suffix. *)
Theorem only_listed_csv_files_are_retrieved :
  let whole_listing (subs : list (nat * str)) :=
    subs = []
    ∨ ∃ found,
        fs_find w (prefix_path cfg) = Ok found
        ∧ subs = imap pair (csv_files_of found)
        ∧ subs.*1 = seq 0 (length (csv_files_of found))
        ∧ StronglySorted str_le subs.*2
        ∧ ∀ p, p ∈ subs.*2 ↔ p ∈ found ∧ lit ".csv" `suffix_of` p in
  whole_listing (submitted (trace (combine_and_upload_high_ram cfg w)))
  ∧ whole_listing (submitted (trace (combine_and_upload_streaming_chunked cfg w))).
Proof.
  assert (∀ found subs,
    subs = imap pair (csv_files_of found) →
    subs.*1 = seq 0 (length (csv_files_of found))
    ∧ StronglySorted str_le subs.*2
    ∧ ∀ p, p ∈ subs.*2 ↔ p ∈ found ∧ lit ".csv" `suffix_of` p) as Hwhole.
  { intros found subs ->.
    assert ((imap pair (csv_files_of found)).*2 = csv_files_of found) as ->.
    { rewrite fmap_imap, (imap_ext _ (const id)) by done.
      by rewrite imap_const, list_fmap_id. }
    split; [|split].
    - rewrite fmap_imap, (imap_ext _ (λ i _, id i)) by done.
      by rewrite imap_seq_0, list_fmap_id.
    - apply (StronglySorted_merge_sort str_le).
    - apply elem_of_csv_files_of. }
  cbv zeta. split.
  - destruct high_ram_submitted as [->|(found & Hfind & ->)]; [by left|right].
    exists found. split; [done|]. split; [done|]. by apply Hwhole.
  - destruct streaming_submitted as [->|(found & Hfind & ->)]; [by left|right].
    exists found. split; [done|]. split; [done|]. by apply Hwhole.
Qed.

Lemma collect_first_failure (futures : list (res (nat * bytes))) (before after : list nat)
    (i : nat) (e : exn) (d : gmap nat bytes) :
  (∀ j e', j ∈ before → futures !! j ≠ Some (Raise e')) →
  futures !! i = Some (Raise e) →
  collect futures (before ++ i :: after) d = ([Printed (DownloadFailed e)], Raise e).
Proof.
  revert d. induction before as [|j before IH]; intros d Hbefore Hi.
  { simpl. by rewrite Hi. }
  simpl. destruct (futures !! j) as [[[k b]|e1]|] eqn:Hj.
  - apply IH; [|done]. intros j' e' Hj'. apply Hbefore. by right.
  - exfalso. apply (Hbefore j e1); [by left|done].
  - apply IH; [|done]. intros j' e' Hj'. apply Hbefore. by right.
Qed.

Lemma gather_first_failure (futures : list (res bytes)) (before after : list nat)
    (i : nat) (e : exn) (all_data : list bytes) :
  (∀ j e', j ∈ before → futures !! j ≠ Some (Raise e')) →
  futures !! i = Some (Raise e) →
  gather futures (before ++ i :: after) all_data = ([], Raise e).
Proof.
  revert all_data. induction before as [|j before IH]; intros all_data Hbefore Hi.
  { simpl. by rewrite Hi. }
  simpl. destruct (futures !! j) as [[b|e1]|] eqn:Hj.
  - apply IH; [|done]. intros j' e' Hj'. apply Hbefore. by right.
  - exfalso. apply (Hbefore j e1); [by left|done].
  - apply IH; [|done]. intros j' e' Hj'. apply Hbefore. by right.
Qed.

(** An exception that leaves a run was raised by the listing, by the
    creation of the pool ([ValueError], when [MAX_WORKERS] is not positive),
    by the retrieval of a submitted path whose future [as_completed]
    yielded, or by the upload.  Nothing else makes a run fail: not the
    estimate, not the prompt, not the compression. *)
Theorem failure_causes (e : exn) :
  (result (combine_and_upload_high_ram cfg w) = Raise e →
   fs_find w (prefix_path cfg) = Raise e
   ∨ ((MAX_WORKERS cfg ≤ 0)%Z ∧ e = ValueError)
   ∨ (∃ i p total_files,
        (i, p) ∈ submitted (trace (combine_and_upload_high_ram cfg w))
        ∧ i ∈ as_completed w
        ∧ download_entire_file w p i total_files = Raise e)
   ∨ (∃ u, uploads (trace (combine_and_upload_high_ram cfg w)) = [u]
           ∧ upload_from_file w u = Raise e))
  ∧
  (result (combine_and_upload_streaming_chunked cfg w) = Raise e →
   fs_find w (prefix_path cfg) = Raise e
   ∨ ((MAX_WORKERS cfg ≤ 0)%Z ∧ e = ValueError)
   ∨ (∃ i p,
        (i, p) ∈ submitted (trace (combine_and_upload_streaming_chunked cfg w))
        ∧ i ∈ as_completed w
        ∧ process_file_fast w p = Raise e)
   ∨ (∃ u, uploads (trace (combine_and_upload_streaming_chunked cfg w)) = [u]
           ∧ upload_from_file w u = Raise e)).
Proof.
  split.
  - destruct (high_ram_cases cfg w) as [(e0 & Hfind & ->)|(found & Hfind & Hcases)].
    { intros [= ->]. by left. }
    cbv zeta in Hcases.
    destruct Hcases as [[_ ->]|(tr & g & _ & _ & Hev & Hcases)]; [done|].
    destruct Hcases
      as [[_ ->]|[(_ & Hle & ->)|[(_ & _ & e0 & Hc & ->)|(_ & _ & d & _ & ->)]]].
    + done.
    + intros [= <-]. right. by left.
    + intros [= ->]. right. right. left.
      apply collect_raise_inv in Hc as (_ & before & i & after & Horder & Hi & _).
      rewrite list_lookup_imap in Hi.
      destruct (csv_files_of found !! i) as [p|] eqn:Hp; [|done].
      injection Hi as Hi. exists i, p, (length (csv_files_of found)).
      split; [|split; [|done]].
      * apply estimator_events_no_upload in Hev as [_ Hsub].
        rewrite trace_pair, (submitted_pieces _ _ _ _ _ [_]) by done.
        by apply elem_of_imap_pair.
      * rewrite Horder. apply elem_of_app. right. by left.
    + rewrite result_pair. intros Hup. right. right. right.
      eexists. split; [|exact Hup]. by read_trace Hev.
  - destruct (streaming_cases cfg w) as [(e0 & Hfind & ->)|(found & Hfind & Hcases)].
    { intros [= ->]. by left. }
    cbv zeta in Hcases.
    destruct Hcases as [[Hle ->]|[(_ & e0 & Hg & ->)|(_ & all_data & _ & ->)]].
    + intros [= <-]. right. by left.
    + intros [= ->]. right. right. left.
      apply gather_raise_inv in Hg as (before & i & after & Horder & Hi & _).
      rewrite list_lookup_fmap in Hi.
      destruct (csv_files_of found !! i) as [p|] eqn:Hp; [|done].
      injection Hi as Hi. exists i, p. split; [|split; [|done]].
      * rewrite trace_pair, <- (app_nil_r (imap Submitted _)).
        rewrite <- (app_nil_l ([NewExecutor _] ++ _)).
        rewrite (submitted_pieces _ _ [] _ _ []) by done.
        by apply elem_of_imap_pair.
      * rewrite Horder. apply elem_of_app. right. by left.
    + rewrite result_pair. intros Hup. right. right. right.
      eexists. split; [|exact Hup]. by read_trace I.
Qed.

(** Of several failing retrievals the one whose future [as_completed]
    yields first decides: when every submitted retrieval yielded before it
    succeeded, the run raises this retrieval's exception (the high-RAM
    function after printing it as its last line). *)
Theorem first_failure_is_raised (before after : list nat) (i : nat) (p : str)
    (e : exn) (total_files : nat) :
  as_completed w = before ++ i :: after →
  ((i, p) ∈ submitted (trace (combine_and_upload_high_ram cfg w)) →
   download_entire_file w p i total_files = Raise e →
   (∀ j q, j ∈ before →
      (j, q) ∈ submitted (trace (combine_and_upload_high_ram cfg w)) →
      ∃ b, download_entire_file w q j total_files = Ok (j, b)) →
   result (combine_and_upload_high_ram cfg w) = Raise e
   ∧ last (trace (combine_and_upload_high_ram cfg w))
     = Some (Printed (DownloadFailed e)))
  ∧
  ((i, p) ∈ submitted (trace (combine_and_upload_streaming_chunked cfg w)) →
   process_file_fast w p = Raise e →
   (∀ j q, j ∈ before →
      (j, q) ∈ submitted (trace (combine_and_upload_streaming_chunked cfg w)) →
      ∃ b, process_file_fast w q = Ok b) →
   result (combine_and_upload_streaming_chunked cfg w) = Raise e).
Proof.
  intros Horder. split; intros Hsub Hfail Hbefore.
  - destruct (high_ram_submitted_inv cfg w i p Hsub)
      as (found & tr & Hfind & Hne & Hest & Hw & Hp).
    assert (∀ j q, csv_files_of found !! j = Some q →
              (j, q) ∈ submitted (trace (combine_and_upload_high_ram cfg w)))
      as Hlisted.
    { destruct high_ram_submitted as [Hnone|(found' & Hfind' & Hall)].
      - rewrite Hnone in Hsub. by apply elem_of_nil in Hsub.
      - rewrite Hfind in Hfind'. injection Hfind' as <-.
        intros j q Hq. rewrite Hall. by apply elem_of_imap_pair. }
    rewrite high_ram_run. cbv zeta.
    rewrite Hfind, decide_False, Hest by done.
    rewrite download_compress_upload_run, download_all_run, decide_False by done.
    cbv zeta. rewrite Horder, (collect_first_failure _ before after i e).
    + rewrite !trace_pair, !result_pair. split; [done|]. read_last.
    + intros j e' Hj. rewrite list_lookup_imap.
      destruct (csv_files_of found !! j) as [q|] eqn:Hq; [|done].
      destruct (Hbefore j q Hj (Hlisted j q Hq)) as [b Hb].
      simpl. intros [= Hraise]. unfold download_entire_file in Hb, Hraise.
      by rewrite Hb in Hraise.
    + rewrite list_lookup_imap, Hp. simpl. f_equal.
      by apply (download_entire_file_total w p i total_files).
  - destruct (streaming_submitted_inv cfg w i p Hsub) as (found & Hfind & Hw & Hp).
    assert (∀ j q, csv_files_of found !! j = Some q →
              (j, q) ∈ submitted (trace (combine_and_upload_streaming_chunked cfg w)))
      as Hlisted.
    { destruct streaming_submitted as [Hnone|(found' & Hfind' & Hall)].
      - rewrite Hnone in Hsub. by apply elem_of_nil in Hsub.
      - rewrite Hfind in Hfind'. injection Hfind' as <-.
        intros j q Hq. rewrite Hall. by apply elem_of_imap_pair. }
    rewrite streaming_run. cbv zeta.
    rewrite Hfind, process_all_run, decide_False by done.
    cbv zeta. rewrite Horder, (gather_first_failure _ before after i e).
    + by rewrite !trace_pair, !result_pair.
    + intros j e' Hj. rewrite list_lookup_fmap.
      destruct (csv_files_of found !! j) as [q|] eqn:Hq; [|done].
      destruct (Hbefore j q Hj (Hlisted j q Hq)) as [b Hb].
      simpl. by rewrite Hb.
    + by rewrite list_lookup_fmap, Hp, <- Hfail.
Qed.

Lemma write_in_order_dict (indices : list nat) (d : gmap nat bytes) (written : bytes) :
  NoDup indices →
  ∃ d' out,
    result (write_in_order indices d written) = Ok (d', out)
    ∧ ∀ k, d' !! k = if decide (k ∈ indices) then None else d !! k.
Proof.
  revert d written. induction indices as [|i rest IH]; intros d written Hnd.
  { exists d, written. split; [done|]. intros k. by rewrite decide_False by apply not_elem_of_nil. }
  apply NoDup_cons in Hnd as [Hi Hnd]. simpl.
  destruct (d !! i) as [data|] eqn:Hd.
  - destruct (IH (delete i d) (written ++ data) Hnd) as (d' & out & Hres & Hd').
    exists d', out. split; [done|]. intros k. rewrite Hd'.
    destruct (decide (k = i)) as [->|Hne].
    + rewrite (decide_True (P:=i ∈ i :: rest)) by left.
      rewrite lookup_delete_eq. by destruct (decide (i ∈ rest)).
    + rewrite lookup_delete_ne by done.
      destruct (decide (k ∈ rest)) as [Hin|Hout].
      * by rewrite decide_True by (by right).
      * rewrite decide_False; [done|]. by intros [?|?]%elem_of_cons.
  - destruct (IH d written Hnd) as (d' & out & Hres & Hd').
    exists d', out. split.
    + destruct (write_in_order rest d written) as [tr r]. by simpl in *.
    + intros k. rewrite Hd'. destruct (decide (k = i)) as [->|Hne].
      * rewrite (decide_True (P:=i ∈ i :: rest)) by left.
        by rewrite decide_False.
      * destruct (decide (k ∈ rest)) as [Hin|Hout].
        -- by rewrite decide_True by (by right).
        -- rewrite decide_False; [done|]. by intros [?|?]%elem_of_cons.
Qed.

Lemma collect_keys (futures : list (res (nat * bytes))) (order : list nat)
    (d d' : gmap nat bytes) (tr : list event) (n : nat) :
  (∀ j i b, futures !! j = Some (Ok (i, b)) → i < n) →
  (∀ i, is_Some (d !! i) → i < n) →
  collect futures order d = (tr, Ok d') →
  ∀ i, is_Some (d' !! i) → i < n.
Proof.
  intros Hfut. revert d. induction order as [|j order IH]; intros d Hd.
  { by intros [= _ <-]. }
  simpl. destruct (futures !! j) as [[[k b]|e1]|] eqn:Hj; [|done|by apply IH].
  apply IH. intros i. destruct (decide (i = k)) as [->|Hne].
  - intros _. by apply (Hfut j k b).
  - rewrite lookup_insert_ne by done. apply Hd.
Qed.

(** The compression loop frees what it writes: it always ends normally,
    having written the payloads present for the indices below [n] in index
    order, and leaves a dict that holds nothing under an index below [n]
    and is unchanged elsewhere.  After the downloads of a run the dict
    holds indices of the listing only, so the loop leaves it empty. *)
Theorem payloads_are_released (n : nat) (file_data_dict : gmap nat bytes) :
  ∃ d',
    result (write_in_order (seq 0 n) file_data_dict [])
      = Ok (d', concat (present n file_data_dict))
    ∧ (∀ i, d' !! i = if decide (i < n) then None else file_data_dict !! i)
    ∧ ∀ (csv_files : list str) (tr : list event),
        length csv_files = n →
        collect (imap (λ i p, download_entire_file w p i n) csv_files)
          (as_completed w) ∅ = (tr, Ok file_data_dict) →
        d' = ∅.
Proof.
  destruct (write_in_order_dict (seq 0 n) file_data_dict [] (NoDup_seq 0 n))
    as (d' & out & Hres & Hd').
  destruct (write_in_order_run (seq 0 n) file_data_dict [] (NoDup_seq 0 n))
    as [_ [d'' Hres']].
  rewrite Hres in Hres'. injection Hres' as <- ->.
  assert (∀ i, d' !! i = if decide (i < n) then None else file_data_dict !! i)
    as Hlookup.
  { intros i. rewrite Hd'.
    destruct (decide (i < n)) as [Hlt|Hge].
    - rewrite decide_True; [done|]. apply elem_of_seq. lia.
    - rewrite decide_False; [done|]. rewrite elem_of_seq. lia. }
  exists d'. split; [done|]. split; [done|].
  intros csv_files tr Hlen Hc. apply map_eq. intros i.
  rewrite Hlookup, lookup_empty. destruct (decide (i < n)) as [|Hge]; [done|].
  apply eq_None_not_Some. intros Hsome. apply Hge.
  eapply (collect_keys _ _ ∅ file_data_dict tr n); [| |exact Hc|exact Hsome].
  - intros j k b. rewrite list_lookup_imap.
    destruct (csv_files !! j) as [p|] eqn:Hp; [|done]. simpl.
    intros [= Hd]. apply download_entire_file_ok_inv in Hd as [-> _].
    apply lookup_lt_Some in Hp. lia.
  - intros k. rewrite lookup_empty. by intros [? ?].
Qed.

Lemma sum_sizes_trace (files : list str) (acc : Z) :
  ∃ k, trace (sum_sizes w files acc) = FsSize <$> take k files.
Proof.
  revert acc. induction files as [|f files IH]; intros acc; [by exists 0|].
  simpl. destruct (fs_size w Estimating f) as [s|e]; simpl.
  - destruct (IH (acc + s)%Z) as [k Hk]. exists (S k).
    destruct (sum_sizes w files (acc + s)%Z) as [tr r]. simpl in *. by rewrite Hk.
  - by exists 1.
Qed.

(** The events of an estimate: size queries for the first files of the
    sample, then at most the warning, one prompt and the give-up line. *)
Lemma estimate_trace (csv_files : list str) :
  ∃ k extra,
    trace (estimate cfg w csv_files)
      = (FsSize <$> take k (take (10 `min` length csv_files) csv_files)) ++ extra
    ∧ size_queries extra = []
    ∧ prompts extra ≤ 1.
Proof.
  unfold estimate.
  generalize (take (10 `min` length csv_files) csv_files). intros sample_files.
  destruct (sum_sizes_trace sample_files 0) as [k Hk].
  exists k.
  assert (∀ extra : list event,
    size_queries extra = [] → prompts extra ≤ 1 →
    ∀ tr, tr = (FsSize <$> take k sample_files) ++ extra →
    ∃ extra, tr = (FsSize <$> take k sample_files) ++ extra
             ∧ size_queries extra = [] ∧ prompts extra ≤ 1) as Hclose.
  { intros extra ? ? tr ->. by exists extra. }
  destruct (sum_sizes w _ 0%Z) as [tr [sample_size|e]]; simpl in *; subst tr.
  2:{ apply (Hclose [Printed (CouldNotEstimateSize e)]); [done|cbv; lia|done]. }
  destruct (int_truediv _ _) as [avg|e]; simpl.
  2:{ apply (Hclose [Printed (CouldNotEstimateSize e)]); [done|cbv; lia|].
      by rewrite app_nil_r. }
  destruct (float_gt_int _ _); simpl.
  2:{ apply (Hclose []); [done|cbv; lia|done]. }
  destruct (input w) as [response|e]; simpl.
  - apply (Hclose [Printed ExceedsMemoryLimit; InputPrompt]); [done|cbv; lia|].
    by destruct (decide _).
  - apply (Hclose [Printed ExceedsMemoryLimit; InputPrompt;
                   Printed (CouldNotEstimateSize e)]); [done|cbv; lia|].
    by rewrite <- app_assoc.
Qed.

Lemma omap_other_None {C} (sel : event → option C) (tr : list event) :
  (∀ ev, ¬ estimator_event ev → sel ev = None) →
  Forall (λ ev, ¬ estimator_event ev) tr → omap sel tr = [].
Proof.
  intros Hsel. induction 1 as [|ev tr Hev _ IH]; [done|].
  csimpl. by rewrite (Hsel ev Hev).
Qed.

(** What a high-RAM run shows of the events that only an estimate produces
    (size queries, prompts) is what its estimate shows, if it made one. *)
Lemma high_ram_estimate_events {C} (sel : event → option C) :
  (∀ ev, ¬ estimator_event ev → sel ev = None) →
  (∀ m, sel (Printed m) = None) →
  omap sel (trace (combine_and_upload_high_ram cfg w)) = []
  ∨ ∃ found,
      fs_find w (prefix_path cfg) = Ok found
      ∧ omap sel (trace (combine_and_upload_high_ram cfg w))
        = omap sel (trace (estimate cfg w (csv_files_of found))).
Proof.
  intros Hother Hprinted.
  assert (∀ o q, omap sel [NewFileSystem o; FsFind q] = []) as Hopened.
  { intros o q. apply omap_other_None; [done|]. repeat constructor; by intros []. }
  assert (∀ n, omap sel [NewExecutor n] = []) as Hpool.
  { intros n. apply omap_other_None; [done|]. repeat constructor; by intros []. }
  assert (∀ u, omap sel [UploadFromFile u] = []) as Hupload.
  { intros u. apply omap_other_None; [done|]. repeat constructor; by intros []. }
  assert (∀ files, omap sel (imap Submitted files) = []) as Hsubs.
  { intros files. apply omap_imap_None. intros i p. apply Hother. by intros []. }
  assert (∀ ms, omap sel (Printed <$> ms) = []) as Hlines.
  { intros ms. by apply omap_fmap_None. }
  assert (∀ m, omap sel [Printed m] = []) as Hline.
  { intros m. apply (Hlines [m]). }
  destruct (high_ram_cases cfg w) as [(e & _ & ->)|(found & Hfind & Hcases)].
  { left. apply Hopened. }
  cbv zeta in Hcases.
  destruct Hcases as [[_ ->]|(tr & g & _ & Hest & Hev & Hcases)].
  { left. by rewrite trace_pair, omap_app, Hopened, Hline. }
  right. exists found. split; [done|]. rewrite Hest, (trace_pair tr).
  destruct Hcases as [[_ ->]|[(_ & _ & ->)|[(_ & _ & e & _ & ->)|(_ & _ & d & _ & ->)]]];
    rewrite trace_pair, ?omap_app, ?Hopened, ?Hpool, ?Hsubs, ?Hupload,
      ?Hline, ?list_fmap_compose, ?Hlines, ?app_nil_r; done.
Qed.

(** The size gate asks little and belongs to the high-RAM function only.
    Ahead of its downloads a high-RAM run asks for at most ten sizes, those
    of the first files of the sorted listing in their order, and it prompts
    at most once.  A streaming run makes no estimate: it asks for no size
    ahead of its downloads, never prompts, and prints none of the lines by
    which the high-RAM function tells the branch it took. *)
Theorem sizes_and_prompts :
  (length (size_queries (trace (combine_and_upload_high_ram cfg w))) ≤ 10
   ∧ prompts (trace (combine_and_upload_high_ram cfg w)) ≤ 1
   ∧ ∀ found,
       fs_find w (prefix_path cfg) = Ok found →
       size_queries (trace (combine_and_upload_high_ram cfg w))
         `prefix_of` csv_files_of found)
  ∧
  (size_queries (trace (combine_and_upload_streaming_chunked cfg w)) = []
   ∧ prompts (trace (combine_and_upload_streaming_chunked cfg w)) = 0
   ∧ printed (trace (combine_and_upload_streaming_chunked cfg w)) = []).
Proof.
  split.
  - assert (∀ csv_files k,
      FsSize <$> take k (take (10 `min` length csv_files) csv_files)
      = FsSize <$> take (k `min` (10 `min` length csv_files)) csv_files) as Htake.
    { intros csv_files k. by rewrite take_take. }
    split; [|split].
    + unfold size_queries.
      destruct (high_ram_estimate_events
                  (λ e, match e with FsSize f => Some f | _ => None end))
        as [->|(found & _ & ->)]; [by intros [] Hev; try done; destruct Hev|done|simpl; lia|].
      destruct (estimate_trace (csv_files_of found)) as (k & extra & -> & Hextra & _).
      fold (size_queries ((FsSize <$> take k (take (10 `min` length (csv_files_of found))
                                           (csv_files_of found))) ++ extra)).
      rewrite size_queries_sample, Hextra, app_nil_r, take_take, length_take. lia.
    + unfold prompts.
      destruct (high_ram_estimate_events
                  (λ e, match e with InputPrompt => Some tt | _ => None end))
        as [->|(found & _ & ->)]; [by intros [] Hev; try done; destruct Hev|done|simpl; lia|].
      destruct (estimate_trace (csv_files_of found)) as (k & extra & -> & _ & Hextra).
      rewrite omap_app, omap_fmap_None, app_nil_l by done. exact Hextra.
    + intros found Hfind. unfold size_queries.
      destruct (high_ram_estimate_events
                  (λ e, match e with FsSize f => Some f | _ => None end))
        as [->|(found' & Hfind' & ->)];
        [by intros [] Hev; try done; destruct Hev|done|apply prefix_nil|].
      rewrite Hfind in Hfind'. injection Hfind' as <-.
      destruct (estimate_trace (csv_files_of found)) as (k & extra & -> & Hextra & _).
      fold (size_queries ((FsSize <$> take k (take (10 `min` length (csv_files_of found))
                                           (csv_files_of found))) ++ extra)).
      rewrite size_queries_sample, Hextra, app_nil_r, take_take. apply prefix_take.
  - destruct (streaming_cases cfg w) as [(e & _ & ->)|(found & _ & Hcases)]; [done|].
    cbv zeta in Hcases.
    destruct Hcases as [[_ ->]|[(_ & e & _ & ->)|(_ & all_data & _ & ->)]];
      by read_trace I.
Qed.

Lemma load_config_fields (getenv : str → option str) (int : str → res Z) :
  load_config getenv int = Ok cfg →
  SOURCE_BUCKET cfg = getenv (lit "SOURCE_BUCKET")
  ∧ DEST_BUCKET cfg = getenv (lit "DEST_BUCKET")
  ∧ DEST_FILENAME cfg = default (lit "combined_output.csv.bz2") (getenv (lit "DEST_FILENAME"))
  ∧ GCS_PREFIX cfg = default (lit "") (getenv (lit "GCS_PREFIX")).
Proof.
  unfold load_config. cbv zeta.
  destruct (int (default (lit "32") _)) as [max_workers|e]; [|done].
  destruct (int (default (lit "80") _)) as [memory_limit_gb|e]; [|done].
  simpl. by intros [= <-].
Qed.

(** The settings are used as read, with no check.  Under settings that
    loaded, a run of either function lists exactly once, under
    [SOURCE_BUCKET/GCS_PREFIX] with an unset bucket written [None] and an
    unset prefix empty (so with neither set the prefix listed is [None/]),
    and whatever it uploads goes to the blob [DEST_FILENAME], by default
    [combined_output.csv.bz2], of the bucket [DEST_BUCKET], set or not. *)
Theorem settings_are_used_unchecked (getenv : str → option str) (int : str → res Z) :
  load_config getenv int = Ok cfg →
  let listed :=
    fmt (getenv (lit "SOURCE_BUCKET")) ++ lit "/"
      ++ default (lit "") (getenv (lit "GCS_PREFIX")) in
  find_calls (trace (combine_and_upload_high_ram cfg w)) = [listed]
  ∧ find_calls (trace (combine_and_upload_streaming_chunked cfg w)) = [listed]
  ∧ (getenv (lit "SOURCE_BUCKET") = None → getenv (lit "GCS_PREFIX") = None →
     listed = lit "None/")
  ∧ ∀ u,
      u ∈ uploads (trace (combine_and_upload_high_ram cfg w))
      ∨ u ∈ uploads (trace (combine_and_upload_streaming_chunked cfg w)) →
      up_bucket u = getenv (lit "DEST_BUCKET")
      ∧ up_blob u
        = default (lit "combined_output.csv.bz2") (getenv (lit "DEST_FILENAME")).
Proof.
  intros (Hsource & Hdest & Hname & Hprefix)%load_config_fields listed.
  assert (prefix_path cfg = listed) as <-.
  { unfold prefix_path, listed. by rewrite Hsource, Hprefix. }
  split; [|split; [|split]].
  - destruct (high_ram_cases cfg w) as [(e & _ & ->)|(found & _ & Hcases)]; [done|].
    cbv zeta in Hcases.
    destruct Hcases as [[_ ->]|(tr & g & _ & _ & Hev & Hcases)]; [done|].
    destruct Hcases as [[_ ->]|[(_ & _ & ->)|[(_ & _ & e & _ & ->)|(_ & _ & d & _ & ->)]]];
      by read_trace Hev.
  - destruct (streaming_cases cfg w) as [(e & _ & ->)|(found & _ & Hcases)]; [done|].
    cbv zeta in Hcases.
    destruct Hcases as [[_ ->]|[(_ & e & _ & ->)|(_ & all_data & _ & ->)]];
      by read_trace I.
  - intros Hs Hp. unfold prefix_path. by rewrite Hsource, Hprefix, Hs, Hp.
  - intros u [Hu|Hu].
    + destruct (high_ram_shape cfg w) as (inner & ups & Htr & Hinner & Hups).
      rewrite Htr in Hu.
      destruct (shape_options_uploads high_ram_fs_options inner ups Hinner) as [_ Hup].
      rewrite Hup in Hu.
      destruct Hups as [->|[output_buffer ->]]; [by apply elem_of_nil in Hu|].
      apply list_elem_of_singleton in Hu as ->. simpl. by rewrite Hdest, Hname.
    + destruct (streaming_shape cfg w) as (inner & ups & Htr & Hinner & Hups).
      rewrite Htr in Hu.
      destruct (shape_options_uploads streaming_fs_options inner ups Hinner) as [_ Hup].
      rewrite Hup in Hu.
      destruct Hups as [->|[output_buffer ->]]; [by apply elem_of_nil in Hu|].
      apply list_elem_of_singleton in Hu as ->. simpl. by rewrite Hdest, Hname.
Qed.

(** A size that cannot be divided stops the high-RAM function only.  When
    the read of a listed path took time and the division of its size by
    [1024*1024] for the throughput line raises (a size too large for a
    float), the download fails although every read succeeded: the high-RAM
    run, once past its gate, ends with an exception and uploads nothing.
    The streaming function never asks for a size: on the same bucket it
    uploads all the bodies. *)
Theorem oversized_file_stops_high_ram_only (found : list str) (bodies : list bytes)
    (i : nat) (p : str) (file_size : Z) (e : exn) :
  fs_find w (prefix_path cfg) = Ok found →
  let csv_files := csv_files_of found in
  result (estimate cfg w csv_files) = Ok Proceed →
  (0 < MAX_WORKERS cfg)%Z →
  Forall2 (λ p b, fs_read w p = Ok b) csv_files bodies →
  csv_files !! i = Some p →
  i ∈ as_completed w →
  fs_size w Downloading p = Ok file_size →
  download_takes_time w p = true →
  int_truediv file_size (1024 * 1024) = Raise e →
  ((∃ e', result (combine_and_upload_high_ram cfg w) = Raise e')
   ∧ uploads (trace (combine_and_upload_high_ram cfg w)) = [])
  ∧ uploads (trace (combine_and_upload_streaming_chunked cfg w))
    = [streaming_upload cfg
         (bz2_compress 9 (concat (omap (λ j, bodies !! j) (as_completed w))))].
Proof.
  intros Hfind csv_files Hgate Hw Hall Hp Hin Hsize Hclock Hdiv. split.
  - destruct (estimate_total cfg w csv_files) as (tr & g & Hest & Hev).
    rewrite Hest, result_pair in Hgate. injection Hgate as ->.
    apply estimator_events_no_upload in Hev as [Hup _].
    assert (csv_files ≠ []) as Hne by (by intros Hnil; rewrite Hnil in Hp).
    destruct (Forall2_lookup_l _ _ _ _ _ Hall Hp) as (b & _ & Hread).
    rewrite high_ram_run. cbv zeta. rewrite Hfind. fold csv_files.
    rewrite decide_False, Hest by done.
    rewrite download_compress_upload_run, download_all_run, decide_False by lia.
    cbv zeta.
    assert (download_entire_file w p i (length csv_files) = Raise e) as Hfail.
    { unfold download_entire_file. rewrite Hsize, Hread. simpl.
      by rewrite Hclock, Hdiv. }
    destruct (collect_raises
      (imap (λ i p, download_entire_file w p i (length csv_files)) csv_files)
      (as_completed w) ∅ i e Hin) as (ms & e' & Hc).
    { by rewrite list_lookup_imap, Hp, <- Hfail. }
    rewrite Hc, !trace_pair, !result_pair. split; [by exists e'|].
    change (NewExecutor ?x :: ?l) with ([NewExecutor x] ++ l).
    by rewrite !trace_pair, !uploads_app, Hup, uploads_submitted, uploads_printed.
  - rewrite (streaming_success cfg w found bodies Hfind Hw Hall), trace_pair.
    by rewrite !uploads_app, uploads_submitted.
Qed.

End Further.

(** ** The further properties on the example buckets *)

(** The upload of the [abc] bucket decides how the high-RAM run ends. *)
Lemma upload_decides_the_outcome_witness :
  let run := combine_and_upload_high_ram example_config (abc_world [2; 0; 1]) in
  let u := high_ram_upload example_config
             (bz2_compress 9 (line "1,2" ++ line "3,4" ++ line "5,6")) in
  result run = Ok tt ∧ last (trace run) = Some (UploadFromFile u).
Proof.
  apply (@upload_decides_the_outcome reference_platform example_config
           (abc_world [2; 0; 1])).
  apply list_elem_of_In. vm_compute. tauto.
Defined.

(** With [b.csv] unreadable both runs fail, and the cause is found among
    the four. *)
Lemma failure_causes_witness :
  let e := TransportError "connection reset" in
  let run := combine_and_upload_streaming_chunked example_config broken_world in
  fs_find broken_world (prefix_path example_config) = Raise e
  ∨ ((MAX_WORKERS example_config ≤ 0)%Z ∧ e = ValueError)
  ∨ (∃ i p, (i, p) ∈ submitted (trace run)
            ∧ i ∈ as_completed broken_world
            ∧ process_file_fast broken_world p = Raise e)
  ∨ (∃ u, uploads (trace run) = [u] ∧ upload_from_file broken_world u = Raise e).
Proof.
  apply (@failure_causes reference_platform example_config broken_world
           (TransportError "connection reset")).
  by vm_compute.
Defined.

(** [b.csv] is yielded last, after two retrievals that succeed. *)
Lemma first_failure_is_raised_witness :
  let e := TransportError "connection reset" in
  (result (combine_and_upload_high_ram example_config broken_world) = Raise e
   ∧ last (trace (combine_and_upload_high_ram example_config broken_world))
     = Some (Printed (DownloadFailed e)))
  ∧ result (combine_and_upload_streaming_chunked example_config broken_world) = Raise e.
Proof.
  destruct (@first_failure_is_raised reference_platform example_config broken_world
              [2; 0] [] 1 b_csv (TransportError "connection reset") 3 eq_refl)
    as [Hhigh Hstream].
  split.
  - apply Hhigh; [apply list_elem_of_In; vm_compute; tauto|by vm_compute|].
    intros j q Hj%list_elem_of_In Hq%list_elem_of_In.
    vm_compute in Hj, Hq.
    destruct Hj as [<-|[<-|[]]];
      destruct Hq as [[=]|[[=]|[[=]|[]]]]; subst; by eexists.
  - apply Hstream; [apply list_elem_of_In; vm_compute; tauto|by vm_compute|].
    intros j q Hj%list_elem_of_In Hq%list_elem_of_In.
    vm_compute in Hj, Hq.
    destruct Hj as [<-|[<-|[]]];
      destruct Hq as [[=]|[[=]|[[=]|[]]]]; subst; by eexists.
Defined.

(** With nothing set in the environment the listing goes to [None/] and
    the upload to the default blob of no bucket. *)
Lemma settings_are_used_unchecked_witness :
  load_config nothing_set int_of_defaults = Ok default_config
  ∧ find_calls (trace (combine_and_upload_high_ram default_config
                         (abc_world [0; 1; 2]))) = [lit "None/"]
  ∧ find_calls (trace (combine_and_upload_streaming_chunked default_config
                         (abc_world [0; 1; 2]))) = [lit "None/"].
Proof.
  split; [reflexivity|].
  destruct (@settings_are_used_unchecked reference_platform default_config
              (abc_world [0; 1; 2]) nothing_set int_of_defaults eq_refl)
    as (Hhigh & Hstream & _).
  by split.
Defined.

(** [b.csv] reported with [2^1100] bytes: the estimate cannot be computed
    and lets the run through, the download of [b.csv] fails on its
    throughput, and only the streaming function uploads. *)
Lemma oversized_file_stops_high_ram_only_witness :
  let high := combine_and_upload_high_ram example_config oversized_world in
  let streaming := combine_and_upload_streaming_chunked example_config oversized_world in
  ((∃ e', result high = Raise e') ∧ uploads (trace high) = [])
  ∧ uploads (trace streaming)
    = [streaming_upload example_config
         (bz2_compress 9 (line "1,2" ++ line "3,4" ++ line "5,6"))].
Proof.
  apply (@oversized_file_stops_high_ram_only reference_platform example_config
           oversized_world abc.*1 [line "1,2"; line "3,4"; line "5,6"] 1 b_csv
           (2 ^ 1100)%Z OverflowError eq_refl).
  - by vm_compute.
  - done.
  - vm_compute. by repeat constructor.
  - by vm_compute.
  - apply list_elem_of_In. vm_compute. tauto.
  - by vm_compute.
  - done.
  - by vm_compute.
Defined.
